(** * Prefix Web Search: a shallow embedding of the search provider

    The repository ships two revisions of [extension.js]:
    - [src/extension.js]: the engine table maps a prefix to a URL template and
      a prefix is honoured only when more terms follow it;
    - [src/unnamed/part_000]: the engine table maps a prefix to a record with
      [url] and the optional [empty_query_url], and a prefix is honoured
      whenever the table has it.
    Both are embedded below, in the modules [Extension] and [Part000], on top
    of a shared model of the JavaScript operations they call: strings as
    sequences of UTF-16 code units, [Array.prototype.join],
    [String.prototype.startsWith], [encodeURIComponent],
    [String.prototype.replace] with a string pattern, and the backtracking
    matcher of [RegExp.prototype.exec] for the fragment of the pattern
    language the URL expression uses.

    Calls to [log] write to the journal only and are left out.  The icon
    factory attached to result metas is a host closure and is left out.
    [String.prototype.toLowerCase] and [toUpperCase] depend on the Unicode
    case tables: the provider models take them from the class [Unicode], and
    every general statement holds for all its instances.  Configuration
    entries have the shape the extension expects of [search_engines.json]:
    string [prefix] and [url], optional string [empty_query_url]. *)

From Stdlib Require Import NArith Ascii String Lia.
From stdpp Require Import base option list gmap strings.

Local Open Scope N_scope.

(** ** JavaScript strings *)

Module Js.

(** A string is its sequence of UTF-16 code units. *)
Abbreviation jsstring := (list N).

Definition cu (a : ascii) : N := N_of_ascii a.

(** A literal of the source, all of whose characters are ASCII. *)
Definition lit (s : string) : list N := map cu (list_ascii_of_string s).

(** [Array.prototype.join(sep)] on an array of strings. *)
Fixpoint join (sep : list N) (parts : list (list N)) : list N :=
  match parts with
  | [] => []
  | [p] => p
  | p :: rest => p ++ sep ++ join sep rest
  end.

(** [String.prototype.startsWith(prefix)]. *)
Fixpoint startsWith (prefix s : list N) : bool :=
  match prefix, s with
  | [], _ => true
  | _ :: _, [] => false
  | a :: prefix', b :: s' => (a =? b) && startsWith prefix' s'
  end.

(** Errors a modelled operation can throw. *)
Inductive error := URIError | TypeError.

Inductive completion (A : Type) :=
| Normal (a : A)
| Throw (e : error).
Arguments Normal {A} a.
Arguments Throw {A} e.

#[export] Instance completion_ret : MRet completion := @Normal.
#[export] Instance completion_bind : MBind completion := fun A B k c =>
  match c with
  | Normal a => k a
  | Throw e => Throw e
  end.

(** [Array.prototype.map(f)] for a callback that may throw is stdpp's
    [mapM]: the first exception, in element order, aborts the traversal. *)

(** *** encodeURIComponent

    ECMA-262 [Encode(string, extraUnescaped)] with nothing extra: the ASCII word
    characters and [-.!~*'()] are copied, every other code point is written
    as the percent-escapes of its UTF-8 octets, and an unpaired surrogate
    throws a URIError. *)

Definition between (lo hi c : N) : bool := (lo <=? c) && (c <=? hi).

Definition isAsciiWordChar (c : N) : bool :=
  between (cu "a") (cu "z") c || between (cu "A") (cu "Z") c ||
  between (cu "0") (cu "9") c || (c =? cu "_").

Definition inString (c : N) (s : list N) : bool := existsb (N.eqb c) s.

Definition alwaysUnescaped (c : N) : bool :=
  isAsciiWordChar c || inString c (lit "-.!~*'()").

Definition isLeadingSurrogate (c : N) : bool := between 0xD800 0xDBFF c.
Definition isTrailingSurrogate (c : N) : bool := between 0xDC00 0xDFFF c.

Definition UTF16SurrogatePairToCodePoint (lead trail : N) : N :=
  (lead - 0xD800) * 0x400 + (trail - 0xDC00) + 0x10000.

Definition utf8Octets (cp : N) : list N :=
  if cp <? 0x80 then [cp]
  else if cp <? 0x800 then [0xC0 + cp / 0x40; 0x80 + cp mod 0x40]
  else if cp <? 0x10000 then
    [0xE0 + cp / 0x1000; 0x80 + (cp / 0x40) mod 0x40; 0x80 + cp mod 0x40]
  else
    [0xF0 + cp / 0x40000; 0x80 + (cp / 0x1000) mod 0x40;
     0x80 + (cp / 0x40) mod 0x40; 0x80 + cp mod 0x40].

Definition hexDigit (d : N) : N :=
  if d <? 10 then cu "0" + d else cu "A" + (d - 10).

Definition percentEscape (octet : N) : list N :=
  [cu "%"; hexDigit (octet / 16); hexDigit (octet mod 16)].

Definition escapeCodePoint (cp : N) : list N :=
  List.concat (map percentEscape (utf8Octets cp)).

Fixpoint encodeURIComponent (s : list N) : completion (list N) :=
  match s with
  | [] => Normal []
  | c :: rest =>
      if alwaysUnescaped c then
        r ← encodeURIComponent rest; Normal (c :: r)
      else if isLeadingSurrogate c then
        match rest with
        | c2 :: rest' =>
            if isTrailingSurrogate c2 then
              r ← encodeURIComponent rest';
              Normal (escapeCodePoint (UTF16SurrogatePairToCodePoint c c2) ++ r)
            else Throw URIError
        | [] => Throw URIError
        end
      else if isTrailingSurrogate c then Throw URIError
      else
        r ← encodeURIComponent rest; Normal (escapeCodePoint c ++ r)
  end.

(** *** String.prototype.replace with a string pattern

    ECMA-262 [String.prototype.replace(searchValue, replaceValue)] where both
    arguments are strings: only the first occurrence is replaced, and the
    replacement text is expanded by [GetSubstitution] with no captures. *)

(** [StringIndexOf(string, searchString, 0)], counting from [i]. *)
Fixpoint StringIndexOf (str searchString : list N) (i : nat) : option nat :=
  if startsWith searchString str then Some i
  else match str with
       | [] => None
       | _ :: str' => StringIndexOf str' searchString (S i)
       end.

(** [GetSubstitution(matched, str, position, captures = [], namedCaptures =
    undefined, replacementTemplate)].  With no captures, [$n] and [$<] stand
    for themselves, like a [$] before any other character. *)
Fixpoint GetSubstitution (matched preceding following template : list N) : list N :=
  match template with
  | [] => []
  | c :: t =>
      if c =? cu "$" then
        match t with
        | [] => [c]
        | d :: t' =>
            if d =? cu "$" then cu "$" :: GetSubstitution matched preceding following t'
            else if d =? cu "`" then preceding ++ GetSubstitution matched preceding following t'
            else if d =? cu "&" then matched ++ GetSubstitution matched preceding following t'
            else if d =? cu "'" then following ++ GetSubstitution matched preceding following t'
            else c :: GetSubstitution matched preceding following t
        end
      else c :: GetSubstitution matched preceding following t
  end.

Definition String_replace (str searchString replaceValue : list N) : list N :=
  match StringIndexOf str searchString 0 with
  | None => str
  | Some position =>
      let preceding := take position str in
      let following := drop (position + length searchString) str in
      preceding ++ GetSubstitution searchString preceding following replaceValue
                ++ following
  end.

End Js.

Import Js.

(** ** Regular expressions

    The matcher of ECMA-262 (22.2.2, continuation-passing and backtracking)
    for patterns without flags, restricted to the constructs of the URL
    expression: sequences, characters, character classes, capturing groups,
    greedy quantifiers and the word-boundary assertion.  Captures are not
    observed by the extension (only element 0 of the match is) and are not
    recorded. *)

Module RegExp.

Inductive Pattern :=
| Empty                                         (* Alternative :: [empty] *)
| Seq (alternative term : Pattern)              (* Alternative :: Alternative Term *)
| Char (ch : N)                                 (* PatternCharacter, \. \/ *)
| CharacterClass (ranges : list (N * N))        (* [ ClassRanges ] *)
| Group (disjunction : Pattern)                 (* ( Disjunction ) *)
| Quantified (atom : Pattern) (min : nat) (max : option nat)
                                                (* Atom Quantifier, greedy *)
| WordBoundary.                                 (* \b *)

(** The input is split at [endIndex]: the code units before it, the last one
    first, and the code units from it on. *)
Record MatchState := { consumed : list N; remaining : list N }.

Definition endIndex (x : MatchState) : nat := length (consumed x).

Definition MatcherContinuation := MatchState -> option MatchState.
Definition Matcher := MatchState -> MatcherContinuation -> option MatchState.

Definition inRanges (ranges : list (N * N)) (ch : N) : bool :=
  existsb (fun r => between (fst r) (snd r) ch) ranges.

Definition CharacterSetMatcher (A : N -> bool) : Matcher := fun x c =>
  match remaining x with
  | [] => None
  | ch :: rest =>
      if A ch then c {| consumed := ch :: consumed x; remaining := rest |}
      else None
  end.

(** [IsWordChar(e)] for the position before and at [endIndex]. *)
Definition IsWordChar (neighbour : option N) : bool :=
  match neighbour with
  | None => false
  | Some ch => isAsciiWordChar ch
  end.

Definition atWordBoundary (x : MatchState) : bool :=
  xorb (IsWordChar (head (consumed x))) (IsWordChar (head (remaining x))).

(** [RepeatMatcher(m, min, max, greedy = true, x, c)].  Every call of the
    inner continuation either lowers [min] or moves [endIndex] forward, so
    the nesting never exceeds [min + length (remaining x) + 1], which is the
    [fuel] the compiler passes in. *)
Fixpoint RepeatMatcher (fuel : nat) (m : Matcher) (min : nat) (max : option nat)
    : Matcher := fun x c =>
  match fuel with
  | O => None
  | S fuel' =>
      match max with
      | Some O => c x
      | _ =>
          let d : MatcherContinuation := fun y =>
            if Nat.eqb min 0 && Nat.eqb (endIndex y) (endIndex x) then None
            else RepeatMatcher fuel' m (Nat.pred min) (Nat.pred <$> max) y c in
          if negb (Nat.eqb min 0) then m x d
          else match m x d with
               | Some z => Some z
               | None => c x
               end
      end
  end.

Fixpoint CompileSubpattern (p : Pattern) : Matcher :=
  match p with
  | Empty => fun x c => c x
  | Seq alternative term =>
      let m1 := CompileSubpattern alternative in
      let m2 := CompileSubpattern term in
      fun x c => m1 x (fun y => m2 y c)
  | Char ch => CharacterSetMatcher (N.eqb ch)
  | CharacterClass ranges => CharacterSetMatcher (inRanges ranges)
  | Group disjunction =>
      let m := CompileSubpattern disjunction in
      fun x c => m x (fun y => c y)
  | Quantified atom min max =>
      let m := CompileSubpattern atom in
      fun x c => RepeatMatcher (min + length (remaining x) + 1) m min max x c
  | WordBoundary => fun x c => if atWordBoundary x then c x else None
  end.

(** What the extension reads of a match: [match.index] and [match[0]]. *)
Record MatchResult := { index : nat; matched : list N }.

(** [RegExpBuiltinExec(R, S)] without the global and sticky flags: the
    search starts at index 0 and moves one code unit forward on failure,
    up to and including the end of the input. *)
Fixpoint execFrom (m : Matcher) (before after : list N) : option MatchResult :=
  let x := {| consumed := before; remaining := after |} in
  match m x Some with
  | Some y => Some {| index := endIndex x;
                      matched := take (endIndex y - endIndex x)%nat after |}
  | None =>
      match after with
      | [] => None
      | ch :: after' => execFrom m (ch :: before) after'
      end
  end.

Definition RegExpBuiltinExec (R : Pattern) (S : list N) : option MatchResult :=
  execFrom (CompileSubpattern R) [] S.

(** [RegExp.prototype.test] and [String.prototype.match] (no global flag). *)
Definition test (R : Pattern) (S : list N) : bool :=
  match RegExpBuiltinExec R S with Some _ => true | None => false end.

Definition String_match (S : list N) (R : Pattern) : option MatchResult :=
  RegExpBuiltinExec R S.

(** Pattern text helpers. *)
Definition sequence (terms : list Pattern) : Pattern := fold_left Seq terms Empty.
Definition chars (s : string) : list Pattern := map Char (lit s).
Definition one (a : ascii) : N * N := (cu a, cu a).
Definition span (a b : ascii) : N * N := (cu a, cu b).
Definition optional (atom : Pattern) : Pattern := Quantified atom 0 (Some 1%nat).

End RegExp.

Import RegExp.

(** ** The URL expression of the extension

    Its seven terms, in order:
    - [(https?:\/\/)?]
    - [(www\.)?]
    - [[-a-zA-Z0-9@:%._\+~#=]{1,256}]
    - [\.]
    - [[a-zA-Z0-9()]{1,6}]
    - [\b]
    - a capturing group around [[-a-zA-Z0-9()@:%_\+.~#?&\/\/=]] under a star. *)

Definition hostClass : list (N * N) :=
  [one "-"; span "a" "z"; span "A" "Z"; span "0" "9"; one "@"; one ":";
   one "%"; one "."; one "_"; one "+"; one "~"; one "#"; one "="].

Definition tldClass : list (N * N) :=
  [span "a" "z"; span "A" "Z"; span "0" "9"; one "("; one ")"].

Definition pathClass : list (N * N) :=
  [one "-"; span "a" "z"; span "A" "Z"; span "0" "9"; one "("; one ")";
   one "@"; one ":"; one "%"; one "_"; one "+"; one "."; one "~"; one "#";
   one "?"; one "&"; one "/"; one "/"; one "="].

Definition urlRegexFromWorkingExtension : Pattern :=
  sequence
    [ optional (Group (sequence (chars "http" ++ [optional (Char (cu "s"))]
                                   ++ chars "://")));
      optional (Group (sequence (chars "www.")));
      Quantified (CharacterClass hostClass) 1 (Some 256%nat);
      Char (cu ".");
      Quantified (CharacterClass tldClass) 1 (Some 6%nat);
      WordBoundary;
      Group (Quantified (CharacterClass pathClass) 0 None) ].

Definition urlRegexForInitialResultSet : Pattern := urlRegexFromWorkingExtension.

(** [regex.test(s) && s.match(regex)?.[0]?.length === s.length]: when the
    match is [null] the left operand is already false. *)
Definition fullLengthMatch (regex : Pattern) (s : list N) : bool :=
  test regex s &&
  match String_match s regex with
  | Some m => Nat.eqb (length (matched m)) (length s)
  | None => false
  end.

(** ** Data shared by the two revisions *)

(** The case mappings of the host's Unicode tables. *)
Class Unicode := {
  toLowerCase : jsstring -> jsstring;
  toUpperCase : jsstring -> jsstring
}.

(** An element of the array in [search_engines.json]. *)
Module Config.
Record Engine := {
  prefix : jsstring;
  url : jsstring;
  empty_query_url : option jsstring   (* absent: undefined *)
}.
End Config.

(** The extension object as the provider sees it. *)
Record ExtensionMeta := { uuid : jsstring }.

(** A settled promise. *)
Inductive settled (A : Type) :=
| Resolved (value : A)
| Rejected (reason : error).
Arguments Resolved {A} value.
Arguments Rejected {A} reason.

(** A result meta without its [createIcon] closure. *)
Module Meta.
Record ResultMeta := { id : jsstring; name : jsstring; description : jsstring }.
End Meta.
Abbreviation ResultMeta := Meta.ResultMeta.

(** What the [try] block of [_loadSearchEnginesConfig] can do: produce the
    parsed array, or throw before or after the decoder is stored. *)
Inductive LoadOutcome :=
| Parsed (config : list Config.Engine)
| Failed (decoderStored : bool).

Definition dquote : N := 34.   (* U+0022 *)

Definition googleTemplate : jsstring := lit "https://www.google.com/search?q={query}".

(** [Map.prototype.has] and [get] on a key that is a string or [undefined]
    ([None]); the keys of the table are strings. *)
Definition Map_has {V} (m : gmap (list N) V) (key : option jsstring) : bool :=
  match key with
  | Some k => match m !! k with Some _ => true | None => false end
  | None => false
  end.

Definition Map_get {V} (m : gmap (list N) V) (key : option jsstring) : option V :=
  match key with
  | Some k => m !! k
  | None => None
  end.

(** [actualSearchTerms.map(encodeURIComponent).join('+')], line 83 of
    [src/extension.js] and 89 of [src/unnamed/part_000]. *)
Definition searchQueryParam (actualSearchTerms : list jsstring) : completion jsstring :=
  encoded ← mapM encodeURIComponent actualSearchTerms;
  Normal (join (lit "+") encoded).

(** Lines 88-99 of [src/extension.js], 94-103 of [src/unnamed/part_000]. *)
Definition launchCommand (isDirectUrl : bool) (targetUrl : jsstring) : jsstring :=
  let cmd := lit "xdg-open " in
  if isDirectUrl then
    if startsWith (lit "http://") targetUrl || startsWith (lit "https://") targetUrl
    then cmd ++ targetUrl
    else cmd ++ (lit "https://" ++ targetUrl)
  else cmd ++ ([dquote] ++ targetUrl ++ [dquote]).

(** The values [activateResult] has computed when it spawns [cmd]. *)
Record Activation := {
  isDirectUrl : bool;
  targetUrl : jsstring;
  cmd : jsstring          (* GLib.spawn_command_line_async(cmd) *)
}.

(** [filterResults], the same in both revisions. *)
Definition filterResults (results : list jsstring) (maxResults : nat) : list jsstring :=
  if (length results <=? maxResults)%nat then results
  else take maxResults results.

(** ** [src/extension.js] *)

Module Extension.
Section WithUnicode.
Context {U : Unicode}.

Record PrefixWebSearchProvider := {
  _extension : ExtensionMeta;
  _lastParsedTerms : list jsstring;
  _searchEnginesMap : gmap (list N) jsstring
}.

Definition constructor (extension : ExtensionMeta)
    (searchEnginesConfig : list Config.Engine) : PrefixWebSearchProvider :=
  let populated :=
    fold_left (fun m engine => <[Config.prefix engine := Config.url engine]> m)
              searchEnginesConfig (∅ : gmap (list N) jsstring) in
  {| _extension := extension;
     _lastParsedTerms := [];
     _searchEnginesMap :=
       if negb (Map_has populated (Some (lit "_default_")))
       then <[lit "_default_" := googleTemplate]> populated
       else populated |}.

(** Lines 71-81: the template and the terms to search for. *)
Definition selectEngine (this : PrefixWebSearchProvider) (termsToUse : list jsstring)
    : option jsstring * list jsstring :=
  let firstTerm := toLowerCase <$> head termsToUse in
  if Map_has (_searchEnginesMap this) firstTerm && (1 <? length termsToUse)%nat
  then (Map_get (_searchEnginesMap this) firstTerm, drop 1 termsToUse)
  else (Map_get (_searchEnginesMap this) (Some (lit "_default_")), termsToUse).

(** Lines 83-84; calling [replace] on [undefined] is a TypeError. *)
Definition searchUrl (urlTemplate : option jsstring) (actualSearchTerms : list jsstring)
    : completion jsstring :=
  searchQueryParam ← searchQueryParam actualSearchTerms;
  match urlTemplate with
  | Some template => Normal (String_replace template (lit "{query}") searchQueryParam)
  | None => Throw TypeError
  end.

Definition activateResult (this : PrefixWebSearchProvider) (resultId : jsstring)
    (termsToUse : list jsstring) : completion Activation :=
  let fullInputString := join (lit " ") termsToUse in
  let isDirectUrl := fullLengthMatch urlRegexFromWorkingExtension fullInputString in
  targetUrl ←
    (if isDirectUrl then Normal fullInputString
     else let '(urlTemplate, actualSearchTerms) := selectEngine this termsToUse in
          searchUrl urlTemplate actualSearchTerms);
  Normal {| isDirectUrl := isDirectUrl;
            targetUrl := targetUrl;
            cmd := launchCommand isDirectUrl targetUrl |}.

(** [Object.keys(Object.fromEntries(map)).find(key => key === wanted) || 'Web']:
    the key itself when the table has it and it is not the empty string. *)
Definition engineNameOr (m : gmap (list N) jsstring) (wanted : option jsstring) : jsstring :=
  match wanted with
  | Some k => if Map_has m wanted && negb (Nat.eqb (length k) 0) then k else lit "Web"
  | None => lit "Web"
  end.

Definition resultMeta (this : PrefixWebSearchProvider) (id : jsstring) : ResultMeta :=
  let currentTerms := _lastParsedTerms this in
  if decide (id = lit "direct-url") then
    {| Meta.id := id; Meta.name := lit "Open URL";
       Meta.description := lit "Open " ++ [dquote] ++ join (lit " ") currentTerms ++ [dquote] |}
  else if decide (id = lit "custom-search") then
    let firstTerm := toLowerCase <$> head currentTerms in
    let hasValidPrefix :=
      Map_has (_searchEnginesMap this) firstTerm && (1 <? length currentTerms)%nat in
    let '(displayQuery, engineName, name) :=
      if hasValidPrefix then
        let engineName := engineNameOr (_searchEnginesMap this) firstTerm in
        (join (lit " ") (drop 1 currentTerms), engineName,
         lit "Search " ++ toUpperCase engineName)
      else
        (join (lit " ") currentTerms,
         engineNameOr (_searchEnginesMap this) (Some (lit "_default_")),
         lit "Prefix Web Search") in
    {| Meta.id := id; Meta.name := name;
       Meta.description := lit "Search for " ++ [dquote] ++ displayQuery ++ [dquote]
                        ++ lit " on " ++ toUpperCase engineName |}
  else {| Meta.id := id; Meta.name := []; Meta.description := [] |}.

Definition getResultMetas (this : PrefixWebSearchProvider) (resultIds : list jsstring)
    : settled (list ResultMeta) :=
  Resolved (map (resultMeta this) resultIds).

Definition getInitialResultSet (this : PrefixWebSearchProvider) (terms : list jsstring)
    : PrefixWebSearchProvider * settled (list jsstring) :=
  let this' := {| _extension := _extension this;
                  _lastParsedTerms := terms;
                  _searchEnginesMap := _searchEnginesMap this |} in
  if Nat.eqb (length terms) 0 then (this', Resolved [])
  else
    let firstTerm := toLowerCase <$> head terms in
    let fullInput := join (lit " ") terms in
    let isDirectUrlInResultSet := fullLengthMatch urlRegexForInitialResultSet fullInput in
    let identifiers :=
      if isDirectUrlInResultSet then [lit "direct-url"]
      else if Map_has (_searchEnginesMap this) firstTerm && (1 <? length terms)%nat
           then [lit "custom-search"]
      else if (0 <? length terms)%nat then [lit "custom-search"]
      else [] in
    (this', Resolved identifiers).

Definition getSubsearchResultSet (this : PrefixWebSearchProvider)
    (results terms : list jsstring) : PrefixWebSearchProvider * settled (list jsstring) :=
  getInitialResultSet this terms.

(** The calls the shell can make on a provider, and the provider each one
    leaves behind.  Only [getInitialResultSet], directly or through
    [getSubsearchResultSet], assigns to a field. *)
Inductive Call :=
| GetName | GetAppInfo | GetCanLaunchSearch | GetId
| ActivateResult (resultId : jsstring) (termsToUse : list jsstring)
| LaunchSearch (terms : list jsstring)
| CreateResultObject (meta : ResultMeta)
| GetResultMetas (resultIds : list jsstring)
| GetInitialResultSet (terms : list jsstring)
| GetSubsearchResultSet (results terms : list jsstring)
| FilterResults (results : list jsstring) (maxResults : nat).

Definition after (this : PrefixWebSearchProvider) (call : Call) : PrefixWebSearchProvider :=
  match call with
  | GetInitialResultSet terms => fst (getInitialResultSet this terms)
  | GetSubsearchResultSet results terms => fst (getSubsearchResultSet this results terms)
  | _ => this
  end.

(** The extension class. *)
Record PrefixWebSearchExtension := {
  meta : ExtensionMeta;
  _provider : option PrefixWebSearchProvider;
  _searchEnginesConfig : option (list Config.Engine);
  _textDecoder : bool       (* whether a TextDecoder is stored *)
}.

Definition fallbackConfig : list Config.Engine :=
  [ {| Config.prefix := lit "gg"; Config.url := googleTemplate;
       Config.empty_query_url := None |};
    {| Config.prefix := lit "_default_"; Config.url := googleTemplate;
       Config.empty_query_url := None |} ].

Definition _loadSearchEnginesConfig (file : LoadOutcome)
    (this : PrefixWebSearchExtension) : PrefixWebSearchExtension :=
  match file with
  | Parsed config =>
      {| meta := meta this; _provider := _provider this;
         _searchEnginesConfig := Some config; _textDecoder := true |}
  | Failed decoderStored =>
      {| meta := meta this; _provider := _provider this;
         _searchEnginesConfig := Some fallbackConfig;
         _textDecoder := decoderStored || _textDecoder this |}
  end.

(** [forEach] on [null] is a TypeError. *)
Definition enable (file : LoadOutcome) (this : PrefixWebSearchExtension)
    : completion PrefixWebSearchExtension :=
  let this :=
    match _searchEnginesConfig this with
    | None => _loadSearchEnginesConfig file this
    | Some _ => this
    end in
  match _provider this with
  | None =>
      match _searchEnginesConfig this with
      | Some config =>
          Normal {| meta := meta this;
                    _provider := Some (constructor (meta this) config);
                    _searchEnginesConfig := _searchEnginesConfig this;
                    _textDecoder := _textDecoder this |}
      | None => Throw TypeError
      end
  | Some _ => Normal this
  end.

Definition disable (this : PrefixWebSearchExtension) : PrefixWebSearchExtension :=
  {| meta := meta this; _provider := None;
     _searchEnginesConfig := None; _textDecoder := false |}.

(** The getters, and the two methods that give the shell nothing. *)
Definition name : jsstring := lit "Prefix Web Search".
Definition appInfo : option unit := None.
Definition canLaunchSearch : bool := true.
Definition id (this : PrefixWebSearchProvider) : jsstring := uuid (_extension this).
Definition launchSearch (terms : list jsstring) : option unit := None.
Definition createResultObject (meta : ResultMeta) : option unit := None.

(** The constructor of the extension class, and the two calls the shell
    makes on an extension over its life. *)
Definition created (meta : ExtensionMeta) : PrefixWebSearchExtension :=
  {| meta := meta; _provider := None; _searchEnginesConfig := None;
     _textDecoder := false |}.

Inductive Lifecycle :=
| Enable (file : LoadOutcome)
| Disable.

Fixpoint lifecycle (calls : list Lifecycle) (this : PrefixWebSearchExtension)
    : completion PrefixWebSearchExtension :=
  match calls with
  | [] => Normal this
  | Enable file :: calls' => this' ← enable file this; lifecycle calls' this'
  | Disable :: calls' => lifecycle calls' (disable this)
  end.

End WithUnicode.
End Extension.

(** ** [src/unnamed/part_000] *)

Module Part000.
Section WithUnicode.
Context {U : Unicode}.

(** A value of the engine table. *)
Record EngineConfig := {
  url : jsstring;
  empty_query_url : option jsstring   (* absent: undefined *)
}.

Record PrefixWebSearchProvider := {
  _extension : ExtensionMeta;
  _lastParsedTerms : list jsstring;
  _searchEnginesMap : gmap (list N) EngineConfig
}.

Definition constructor (extension : ExtensionMeta)
    (searchEnginesConfig : list Config.Engine) : PrefixWebSearchProvider :=
  let populated :=
    fold_left (fun m engine =>
                 <[Config.prefix engine :=
                     {| url := Config.url engine;
                        empty_query_url := Config.empty_query_url engine |}]> m)
              searchEnginesConfig (∅ : gmap (list N) EngineConfig) in
  {| _extension := extension;
     _lastParsedTerms := [];
     _searchEnginesMap :=
       if negb (Map_has populated (Some (lit "_default_")))
       then <[lit "_default_" := {| url := googleTemplate; empty_query_url := None |}]>
              populated
       else populated |}.

(** Lines 73-83: the engine and the terms to search for. *)
Definition selectEngine (this : PrefixWebSearchProvider) (termsToUse : list jsstring)
    : option EngineConfig * list jsstring :=
  let firstTerm := toLowerCase <$> head termsToUse in
  if Map_has (_searchEnginesMap this) firstTerm
  then (Map_get (_searchEnginesMap this) firstTerm, drop 1 termsToUse)
  else (Map_get (_searchEnginesMap this) (Some (lit "_default_")), termsToUse).

(** A string is truthy when it is not empty; [undefined] is falsy. *)
Definition truthy (v : option jsstring) : bool :=
  match v with
  | Some (_ :: _) => true
  | _ => false
  end.

(** Lines 85-91; a property read on [undefined] is a TypeError, and [&&]
    reads [empty_query_url] only when no search terms are left. *)
Definition searchUrl (engineConfig : option EngineConfig)
    (actualSearchTerms : list jsstring) : completion jsstring :=
  emptyQueryUrl ←
    (if Nat.eqb (length actualSearchTerms) 0 then
       match engineConfig with
       | Some engine => Normal (empty_query_url engine)
       | None => Throw TypeError
       end
     else Normal None);
  if truthy emptyQueryUrl then Normal (default [] emptyQueryUrl)
  else
    searchQueryParam ← searchQueryParam actualSearchTerms;
    match engineConfig with
    | Some engine => Normal (String_replace (url engine) (lit "{query}") searchQueryParam)
    | None => Throw TypeError
    end.

Definition activateResult (this : PrefixWebSearchProvider) (resultId : jsstring)
    (termsToUse : list jsstring) : completion Activation :=
  let fullInputString := join (lit " ") termsToUse in
  let isDirectUrl := fullLengthMatch urlRegexFromWorkingExtension fullInputString in
  targetUrl ←
    (if isDirectUrl then Normal fullInputString
     else let '(engineConfig, actualSearchTerms) := selectEngine this termsToUse in
          searchUrl engineConfig actualSearchTerms);
  Normal {| isDirectUrl := isDirectUrl;
            targetUrl := targetUrl;
            cmd := launchCommand isDirectUrl targetUrl |}.

Definition resultMeta (id : jsstring) : ResultMeta :=
  if decide (id = lit "direct-url") then
    {| Meta.id := id; Meta.name := lit "Open URL"; Meta.description := [] |}
  else if decide (id = lit "custom-search") then
    {| Meta.id := id; Meta.name := lit "Prefix Web Search"; Meta.description := [] |}
  else {| Meta.id := id; Meta.name := []; Meta.description := [] |}.

Definition getResultMetas (this : PrefixWebSearchProvider) (resultIds : list jsstring)
    : settled (list ResultMeta) :=
  Resolved (map resultMeta resultIds).

Definition getInitialResultSet (this : PrefixWebSearchProvider) (terms : list jsstring)
    : PrefixWebSearchProvider * settled (list jsstring) :=
  let this' := {| _extension := _extension this;
                  _lastParsedTerms := terms;
                  _searchEnginesMap := _searchEnginesMap this |} in
  if Nat.eqb (length terms) 0 then (this', Resolved [])
  else
    let firstTerm := toLowerCase <$> head terms in
    let fullInput := join (lit " ") terms in
    let isDirectUrlInResultSet := fullLengthMatch urlRegexForInitialResultSet fullInput in
    let identifiers :=
      if isDirectUrlInResultSet then [lit "direct-url"]
      else if Map_has (_searchEnginesMap this) firstTerm then [lit "custom-search"]
      else if (0 <? length terms)%nat then [lit "custom-search"]
      else [] in
    (this', Resolved identifiers).

Definition getSubsearchResultSet (this : PrefixWebSearchProvider)
    (results terms : list jsstring) : PrefixWebSearchProvider * settled (list jsstring) :=
  getInitialResultSet this terms.

Inductive Call :=
| GetName | GetAppInfo | GetCanLaunchSearch | GetId
| ActivateResult (resultId : jsstring) (termsToUse : list jsstring)
| LaunchSearch (terms : list jsstring)
| CreateResultObject (meta : ResultMeta)
| GetResultMetas (resultIds : list jsstring)
| GetInitialResultSet (terms : list jsstring)
| GetSubsearchResultSet (results terms : list jsstring)
| FilterResults (results : list jsstring) (maxResults : nat).

Definition after (this : PrefixWebSearchProvider) (call : Call) : PrefixWebSearchProvider :=
  match call with
  | GetInitialResultSet terms => fst (getInitialResultSet this terms)
  | GetSubsearchResultSet results terms => fst (getSubsearchResultSet this results terms)
  | _ => this
  end.

Record PrefixWebSearchExtension := {
  meta : ExtensionMeta;
  _provider : option PrefixWebSearchProvider;
  _searchEnginesConfig : option (list Config.Engine);
  _textDecoder : bool       (* whether a TextDecoder is stored *)
}.

Definition fallbackConfig : list Config.Engine :=
  [ {| Config.prefix := lit "gg"; Config.url := googleTemplate;
       Config.empty_query_url := None |};
    {| Config.prefix := lit "_default_"; Config.url := googleTemplate;
       Config.empty_query_url := None |} ].

Definition _loadSearchEnginesConfig (file : LoadOutcome)
    (this : PrefixWebSearchExtension) : PrefixWebSearchExtension :=
  match file with
  | Parsed config =>
      {| meta := meta this; _provider := _provider this;
         _searchEnginesConfig := Some config; _textDecoder := true |}
  | Failed decoderStored =>
      {| meta := meta this; _provider := _provider this;
         _searchEnginesConfig := Some fallbackConfig;
         _textDecoder := decoderStored || _textDecoder this |}
  end.

Definition enable (file : LoadOutcome) (this : PrefixWebSearchExtension)
    : completion PrefixWebSearchExtension :=
  let this :=
    match _searchEnginesConfig this with
    | None => _loadSearchEnginesConfig file this
    | Some _ => this
    end in
  match _provider this with
  | None =>
      match _searchEnginesConfig this with
      | Some config =>
          Normal {| meta := meta this;
                    _provider := Some (constructor (meta this) config);
                    _searchEnginesConfig := _searchEnginesConfig this;
                    _textDecoder := _textDecoder this |}
      | None => Throw TypeError
      end
  | Some _ => Normal this
  end.

Definition disable (this : PrefixWebSearchExtension) : PrefixWebSearchExtension :=
  {| meta := meta this; _provider := None;
     _searchEnginesConfig := None; _textDecoder := false |}.

(** The getters, and the two methods that give the shell nothing. *)
Definition name : jsstring := lit "Prefix Web Search".
Definition appInfo : option unit := None.
Definition canLaunchSearch : bool := true.
Definition id (this : PrefixWebSearchProvider) : jsstring := uuid (_extension this).
Definition launchSearch (terms : list jsstring) : option unit := None.
Definition createResultObject (meta : ResultMeta) : option unit := None.

(** The constructor of the extension class, and the two calls the shell
    makes on an extension over its life. *)
Definition created (meta : ExtensionMeta) : PrefixWebSearchExtension :=
  {| meta := meta; _provider := None; _searchEnginesConfig := None;
     _textDecoder := false |}.

Inductive Lifecycle :=
| Enable (file : LoadOutcome)
| Disable.

Fixpoint lifecycle (calls : list Lifecycle) (this : PrefixWebSearchExtension)
    : completion PrefixWebSearchExtension :=
  match calls with
  | [] => Normal this
  | Enable file :: calls' => this' ← enable file this; lifecycle calls' this'
  | Disable :: calls' => lifecycle calls' (disable this)
  end.

End WithUnicode.
End Part000.

(** ** A case mapping for ASCII text

    An instance of [Unicode] that is exact on strings of ASCII characters,
    for evaluating the models on concrete input. *)

Definition asciiLower (c : N) : N :=
  if between (cu "A") (cu "Z") c then c + 32 else c.
Definition asciiUpper (c : N) : N :=
  if between (cu "a") (cu "z") c then c - 32 else c.
Definition asciiCase : Unicode :=
  {| toLowerCase := map asciiLower; toUpperCase := map asciiUpper |}.

Definition sampleConfig : list Config.Engine :=
  [ {| Config.prefix := lit "gg"; Config.url := googleTemplate;
       Config.empty_query_url := None |};
    {| Config.prefix := lit "bil";
       Config.url := lit "https://search.bilibili.com/all?keyword={query}";
       Config.empty_query_url := Some (lit "https://www.bilibili.com") |};
    {| Config.prefix := lit "_default_";
       Config.url := lit "https://duckduckgo.com/?q={query}";
       Config.empty_query_url := None |} ].

Definition shell : ExtensionMeta := {| uuid := lit "prefix-web-search" |}.

(** ** What a pattern matches, without the matcher

    [Matches p x y]: pattern [p] can take the input from state [x] to state
    [y].  A quantifier iterates its atom between [min] and [max] times; like
    the matcher of ECMA-262, it does not count an iteration beyond [min]
    that consumes nothing. *)

Definition Step (A : N -> bool) (x y : MatchState) : Prop :=
  exists ch rest,
    remaining x = ch :: rest /\ A ch = true /\
    y = {| consumed := ch :: consumed x; remaining := rest |}.

Inductive Iterate (R : MatchState -> MatchState -> Prop)
    : nat -> option nat -> MatchState -> MatchState -> Prop :=
| iter_exhausted min x : Iterate R min (Some O) x x
| iter_done max x : Iterate R O max x x
| iter_more min max x y z :
    max <> Some O ->
    R x y ->
    (min = O -> endIndex y <> endIndex x) ->
    Iterate R (Nat.pred min) (Nat.pred <$> max) y z ->
    Iterate R min max x z.

Fixpoint Matches (p : Pattern) : MatchState -> MatchState -> Prop :=
  match p with
  | Empty => fun x y => y = x
  | Seq alternative term =>
      fun x z => exists y, Matches alternative x y /\ Matches term y z
  | Char ch => Step (N.eqb ch)
  | CharacterClass ranges => Step (inRanges ranges)
  | Group disjunction => Matches disjunction
  | Quantified atom min max => Iterate (Matches atom) min max
  | WordBoundary => fun x y => y = x /\ atWordBoundary x = true
  end.

(** The pattern matches the whole of [s], from its first code unit to its
    last. *)
Definition FullMatch (p : Pattern) (s : list N) : Prop :=
  exists y, Matches p {| consumed := []; remaining := s |} y /\ remaining y = [].

(** [y] is [x] moved forward over [w]. *)
Definition Advances (A : N -> Prop) (x y : MatchState) : Prop :=
  exists w, remaining x = w ++ remaining y /\
            consumed y = rev w ++ consumed x /\
            Forall A w.

(** Every character and class of the pattern lies in [A]. *)
Fixpoint charsIn (A : N -> Prop) (p : Pattern) : Prop :=
  match p with
  | Empty | WordBoundary => True
  | Seq alternative term => charsIn A alternative /\ charsIn A term
  | Char ch => A ch
  | CharacterClass ranges => forall ch, inRanges ranges ch = true -> A ch
  | Group disjunction => charsIn A disjunction
  | Quantified atom _ _ => charsIn A atom
  end.

(** A decidable sufficient condition for [charsIn]: every range of the
    pattern lies within one range of [within]. *)
Definition rangesWithin (within ranges : list (N * N)) : bool :=
  forallb (fun r => existsb (fun w => (fst w <=? fst r) && (snd r <=? snd w)) within)
          ranges.

Fixpoint charsWithin (within : list (N * N)) (p : Pattern) : bool :=
  match p with
  | Empty | WordBoundary => true
  | Seq alternative term => charsWithin within alternative && charsWithin within term
  | Char ch => inRanges within ch
  | CharacterClass ranges => rangesWithin within ranges
  | Group disjunction => charsWithin within disjunction
  | Quantified atom _ _ => charsWithin within atom
  end.

(** A matcher finds nothing the relation [R] does not allow, and misses
    nothing it allows: when [R] offers a way on which the continuation
    succeeds, the matcher succeeds (on that way or an earlier one in its
    backtracking order). *)
Definition SoundFor (R : MatchState -> MatchState -> Prop) (m : Matcher) : Prop :=
  forall x c e, m x c = Some e -> exists y, R x y /\ c y = Some e.

Definition CompleteFor (R : MatchState -> MatchState -> Prop) (m : Matcher) : Prop :=
  forall x y c, R x y -> is_Some (c y) -> is_Some (m x c).

(** ** Words of the specification *)

(** The entry of the configuration that wins for [key]: the last one with
    that prefix. *)
Fixpoint lastWrite (key : jsstring) (config : list Config.Engine)
    : option Config.Engine :=
  match config with
  | [] => None
  | engine :: rest =>
      match lastWrite key rest with
      | Some later => Some later
      | None => if bool_decide (Config.prefix engine = key) then Some engine else None
      end
  end.

(** The first occurrence of [needle] in [str] replaced by [replacement],
    taken literally; [str] itself when [needle] does not occur. *)
Fixpoint replaceFirst (needle replacement str : list N) : list N :=
  if startsWith needle str then replacement ++ drop (length needle) str
  else match str with
       | [] => []
       | c :: str' => c :: replaceFirst needle replacement str'
       end.

(** A URL template with its placeholder filled in: the terms are
    percent-encoded, joined with [+] and put at the first [{query}]. *)
Definition substituted (template : jsstring) (queryTerms : list jsstring)
    : completion jsstring :=
  q ← searchQueryParam queryTerms;
  Normal (replaceFirst (lit "{query}") q template).

(** No unpaired surrogate: what the shell hands over, its strings being
    converted from UTF-8. *)
Fixpoint wellFormed (s : list N) : bool :=
  match s with
  | [] => true
  | c :: rest =>
      if isLeadingSurrogate c then
        match rest with
        | c2 :: rest' => isTrailingSurrogate c2 && wellFormed rest'
        | [] => false
        end
      else negb (isTrailingSurrogate c) && wellFormed rest
  end.

#[export] Instance completion_fmap : FMap completion := fun A B f c =>
  match c with
  | Normal a => Normal (f a)
  | Throw e => Throw e
  end.

(** The target of a search with the engine of [src/unnamed/part_000]: the
    engine's [empty_query_url] when no query terms are left and it is a
    non-empty string, the filled-in template otherwise. *)
Definition targetOf (engine : Part000.EngineConfig) (queryTerms : list jsstring)
    : completion jsstring :=
  match queryTerms, Part000.empty_query_url engine with
  | [], Some (c :: home) => Normal (c :: home)
  | _, _ => substituted (Part000.url engine) queryTerms
  end.

(** The engine choice as the specification words it: the entry under the
    lowercased first term when the table has one, with the other terms as
    the query, and the [_default_] entry with all terms otherwise. *)
Definition chosenByPrefix {V} (table : gmap (list N) V) (key : jsstring)
    (terms : list jsstring) : option V * list jsstring :=
  match table !! key with
  | Some engine => (Some engine, drop 1 terms)
  | None => (table !! lit "_default_", terms)
  end.

(** The same choice with the gate of [src/extension.js]: a prefix counts only
    when a term follows it. *)
Definition chosenByPrefixBeforeTerms {V} (table : gmap (list N) V) (key : jsstring)
    (terms : list jsstring) : option V * list jsstring :=
  match table !! key with
  | Some engine =>
      if (1 <? length terms)%nat then (Some engine, drop 1 terms)
      else (table !! lit "_default_", terms)
  | None => (table !! lit "_default_", terms)
  end.

(** The target as the specification words it: always the filled-in
    template of the chosen entry. *)
Definition templateTarget {V} (url : V -> jsstring)
    (choice : option V * list jsstring) : completion jsstring :=
  match fst choice with
  | Some engine => substituted (url engine) (snd choice)
  | None => Throw TypeError
  end.

(** The terms of the last search in a sequence of calls on a provider. *)
Definition lastSearchOf {Call} (searched : Call -> option (list jsstring))
    (calls : list Call) : option (list jsstring) :=
  fold_left (fun last call => match searched call with
                              | Some terms => Some terms
                              | None => last
                              end) calls None.

Definition Extension_searched (call : Extension.Call) : option (list jsstring) :=
  match call with
  | Extension.GetInitialResultSet terms => Some terms
  | Extension.GetSubsearchResultSet _ terms => Some terms
  | _ => None
  end.

Definition Part000_searched (call : Part000.Call) : option (list jsstring) :=
  match call with
  | Part000.GetInitialResultSet terms => Some terms
  | Part000.GetSubsearchResultSet _ terms => Some terms
  | _ => None
  end.


(** The code units [encodeURIComponent] and the joining [+] can produce. *)
Definition queryChar (c : N) : bool :=
  alwaysUnescaped c || (c =? cu "%") || (c =? cu "+").

(** A code unit has 16 bits. *)
Definition isCodeUnit (c : N) : bool := c <? 0x10000.

(** How often a code unit occurs in a string. *)
Definition occurrences (c : N) (s : jsstring) : nat := count_occ N.eq_dec s c.

(** A URL that starts with one of the two schemes. *)
Definition hasScheme (u : jsstring) : Prop :=
  exists rest, u = lit "http://" ++ rest \/ u = lit "https://" ++ rest.

(** * Properties *)

(** Turns boolean range tests in the hypotheses into inequalities and
    splits on every alternative. *)
Ltac range_hyps :=
  repeat match goal with
  | H : false = true |- _ => discriminate H
  | H : (_ || _) = true |- _ => apply orb_prop in H as [H|H]
  | H : (_ && _) = true |- _ => apply andb_prop in H as [? ?]
  | H : (_ <=? _) = true |- _ => apply N.leb_le in H
  | H : (_ =? _) = true |- _ => apply N.eqb_eq in H
  end.
Ltac by_ranges := range_hyps; lia.

(** ** Strings *)

Lemma startsWith_app (p t : jsstring) : startsWith p (p ++ t) = true.
Proof. induction p as [|a p IH]; simpl; [done|]. by rewrite N.eqb_refl. Qed.

Lemma startsWith_inv (p s : jsstring) :
  startsWith p s = true -> s = p ++ drop (length p) s.
Proof.
  revert s; induction p as [|a p IH]; intros [|b s]; simpl; try done.
  intros [Hab Hps]%andb_prop. apply N.eqb_eq in Hab as ->.
  f_equal. by apply IH.
Qed.

Lemma join_cons (sep p : jsstring) (q : jsstring) (rest : list jsstring) :
  join sep (p :: q :: rest) = p ++ sep ++ join sep (q :: rest).
Proof. done. Qed.

Lemma join_Forall (A : N -> Prop) (sep : jsstring) (parts : list jsstring) :
  Forall A sep -> Forall (Forall A) parts -> Forall A (join sep parts).
Proof.
  intros Hsep. induction 1 as [|p parts Hp Hparts IH]; [constructor|].
  destruct parts as [|q parts]; [done|].
  rewrite join_cons. by repeat apply Forall_app_2.
Qed.

(** A replacement text without [$] is inserted as it is. *)
Lemma GetSubstitution_plain (matched preceding following template : jsstring) :
  Forall (fun c => c <> cu "$") template ->
  GetSubstitution matched preceding following template = template.
Proof.
  induction 1 as [|c t Hc Ht IH]; [done|].
  cbn [GetSubstitution]. apply N.eqb_neq in Hc as ->. by rewrite IH.
Qed.

Lemma StringIndexOf_replaceFirst (needle q str : jsstring) (i : nat) :
  match StringIndexOf str needle i with
  | None => replaceFirst needle q str = str
  | Some position =>
      (i <= position)%nat /\
      replaceFirst needle q str =
        take (position - i) str ++ q ++ drop (position - i + length needle) str
  end.
Proof.
  revert i; induction str as [|c str IH]; intros i; simpl.
  - destruct (startsWith needle []) eqn:E; [|done].
    split; [lia|]. by rewrite Nat.sub_diag.
  - destruct (startsWith needle (c :: str)) eqn:E.
    + split; [lia|]. by rewrite Nat.sub_diag.
    + specialize (IH (S i)). destruct (StringIndexOf str needle (S i)) as [pos|].
      * destruct IH as [Hle IH]. split; [lia|].
        replace (pos - i)%nat with (S (pos - S i)) by lia. simpl. by rewrite IH.
      * by rewrite IH.
Qed.

(** [replace] with a [$]-free replacement puts it at the first occurrence of
    the pattern, and changes nothing when there is none. *)
Lemma String_replace_plain (str needle q : jsstring) :
  Forall (fun c => c <> cu "$") q ->
  String_replace str needle q = replaceFirst needle q str.
Proof.
  intros Hq. unfold String_replace.
  pose proof (StringIndexOf_replaceFirst needle q str 0) as H.
  destruct (StringIndexOf str needle 0) as [pos|]; [|done].
  destruct H as [_ ->]. rewrite Nat.sub_0_r.
  by rewrite GetSubstitution_plain.
Qed.

(** [replaceFirst] does what its name says. *)
Lemma replaceFirst_occurrence (needle q pre post : jsstring) :
  (forall pre' post', pre ++ needle ++ post = pre' ++ needle ++ post' ->
                      (length pre <= length pre')%nat) ->
  replaceFirst needle q (pre ++ needle ++ post) = pre ++ q ++ post.
Proof.
  induction pre as [|c pre IH]; intros Hfirst.
  - destruct (needle ++ post) as [|c str] eqn:E; simpl in *.
    + apply app_eq_nil in E as [-> ->]. simpl. by rewrite app_nil_r.
    + rewrite <- E, startsWith_app. f_equal. by rewrite drop_app_length.
  - simpl. destruct (startsWith needle (c :: pre ++ needle ++ post)) eqn:E.
    + apply startsWith_inv in E.
      specialize (Hfirst [] (drop (length needle) (c :: pre ++ needle ++ post)) E).
      simpl in Hfirst. lia.
    + f_equal. apply IH. intros pre' post' Heq.
      specialize (Hfirst (c :: pre') post'). simpl in Hfirst.
      rewrite Heq in Hfirst. specialize (Hfirst eq_refl). lia.
Qed.

Lemma replaceFirst_absent (needle q str : jsstring) :
  (forall pre post, str <> pre ++ needle ++ post) ->
  replaceFirst needle q str = str.
Proof.
  induction str as [|c str IH]; intros Habsent; simpl.
  - destruct (startsWith needle []) eqn:E; [|done].
    apply startsWith_inv in E. by destruct (Habsent [] _ E).
  - destruct (startsWith needle (c :: str)) eqn:E.
    + apply startsWith_inv in E. by destruct (Habsent [] _ E).
    + f_equal. apply IH. intros pre post ->. by apply (Habsent (c :: pre) post).
Qed.

(** ** encodeURIComponent *)

Lemma hexDigit_not_dollar (d : N) : hexDigit d <> cu "$".
Proof.
  unfold hexDigit. destruct (d <? 10) eqn:E; cbn; lia.
Qed.

Lemma escapeCodePoint_no_dollar (cp : N) :
  Forall (fun c => c <> cu "$") (escapeCodePoint cp).
Proof.
  unfold escapeCodePoint, utf8Octets.
  repeat case_match; simpl;
    repeat (first [apply Forall_nil_2 | apply Forall_cons_2]);
    first [apply hexDigit_not_dollar | by cbn].
Qed.

Lemma alwaysUnescaped_not_dollar (c : N) : alwaysUnescaped c = true -> c <> cu "$".
Proof. intros H ->. by vm_compute in H. Qed.

Lemma encodeURIComponent_no_dollar (s r : jsstring) :
  encodeURIComponent s = Normal r -> Forall (fun c => c <> cu "$") r.
Proof.
  remember (length s) as n eqn:Hn.
  revert s r Hn. induction (lt_wf n) as [n _ IH]. intros s r -> Henc.
  destruct s as [|c rest]; simpl in Henc.
  { injection Henc as <-. constructor. }
  destruct (alwaysUnescaped c) eqn:Hun.
  { destruct (encodeURIComponent rest) as [r'|] eqn:Hrest; [|done].
    injection Henc as <-. constructor; [by apply alwaysUnescaped_not_dollar|].
    eapply IH; [|done|done]. simpl; lia. }
  destruct (isLeadingSurrogate c).
  { destruct rest as [|c2 rest']; [done|].
    destruct (isTrailingSurrogate c2); [|done].
    destruct (encodeURIComponent rest') as [r'|] eqn:Hrest; [|done].
    injection Henc as <-. apply Forall_app_2; [apply escapeCodePoint_no_dollar|].
    eapply IH; [|done|done]. simpl; lia. }
  destruct (isTrailingSurrogate c); [done|].
  destruct (encodeURIComponent rest) as [r'|] eqn:Hrest; [|done].
  injection Henc as <-. apply Forall_app_2; [apply escapeCodePoint_no_dollar|].
  eapply IH; [|done|done]. simpl; lia.
Qed.

Lemma mapM_encode_no_dollar (terms encoded : list jsstring) :
  mapM encodeURIComponent terms = Normal encoded ->
  Forall (Forall (fun c => c <> cu "$")) encoded.
Proof.
  revert encoded; induction terms as [|t terms IH]; intros encoded; simpl.
  - intros [= <-]. constructor.
  - destruct (encodeURIComponent t) as [r|] eqn:Ht; [|done]. simpl.
    destruct (mapM encodeURIComponent terms) as [rs|]; [|done]. simpl.
    intros [= <-]. constructor; [by eapply encodeURIComponent_no_dollar|by apply IH].
Qed.

Lemma searchQueryParam_no_dollar (terms : list jsstring) (q : jsstring) :
  searchQueryParam terms = Normal q -> Forall (fun c => c <> cu "$") q.
Proof.
  unfold searchQueryParam.
  destruct (mapM encodeURIComponent terms) as [encoded|] eqn:E; [|done].
  intros [= <-]. apply join_Forall.
  - repeat constructor. by cbn.
  - by eapply mapM_encode_no_dollar.
Qed.

(** Well-formed UTF-16 is always encoded. *)
Lemma encodeURIComponent_wellFormed (s : jsstring) :
  wellFormed s = true -> exists r, encodeURIComponent s = Normal r.
Proof.
  remember (length s) as n eqn:Hn.
  revert s Hn. induction (lt_wf n) as [n _ IH]. intros s -> Hwf.
  destruct s as [|c rest]; simpl in *; [by eexists|].
  destruct (alwaysUnescaped c) eqn:Hun.
  { assert (isLeadingSurrogate c = false) as Hl.
    { destruct (isLeadingSurrogate c) eqn:El; [|done]. exfalso.
      unfold isLeadingSurrogate, between in El. apply andb_prop in El as [El _].
      apply N.leb_le in El.
      unfold alwaysUnescaped, isAsciiWordChar, inString, between in Hun.
      cbn in Hun. by_ranges. }
    rewrite Hl in Hwf. apply andb_prop in Hwf as [_ Hwf].
    destruct (IH (length rest)) with (s := rest) as [r ->]; [lia|done|done|].
    by eexists. }
  destruct (isLeadingSurrogate c).
  { destruct rest as [|c2 rest']; [done|].
    apply andb_prop in Hwf as [-> Hwf].
    destruct (IH (length rest')) with (s := rest') as [r ->]; [simpl; lia|done|done|].
    by eexists. }
  apply andb_prop in Hwf as [Ht Hwf]. apply negb_true_iff in Ht as ->.
  destruct (IH (length rest)) with (s := rest) as [r ->]; [lia|done|done|].
  by eexists.
Qed.

Lemma searchQueryParam_wellFormed (terms : list jsstring) :
  forallb wellFormed terms = true -> exists q, searchQueryParam terms = Normal q.
Proof.
  unfold searchQueryParam. intros Hwf.
  assert (exists encoded, mapM encodeURIComponent terms = Normal encoded) as [enc ->].
  { induction terms as [|t terms IH]; simpl in *; [by eexists|].
    apply andb_prop in Hwf as [Ht Hwf].
    destruct (encodeURIComponent_wellFormed t Ht) as [r ->].
    destruct (IH Hwf) as [rs ->]. by eexists. }
  by eexists.
Qed.

(** ** The matcher against [Matches] *)

Lemma Advances_refl (A : N -> Prop) (x : MatchState) : Advances A x x.
Proof. exists []. by repeat split. Qed.

Lemma Advances_trans (A : N -> Prop) (x y z : MatchState) :
  Advances A x y -> Advances A y z -> Advances A x z.
Proof.
  intros (w1 & Hr1 & Hc1 & HA1) (w2 & Hr2 & Hc2 & HA2).
  exists (w1 ++ w2). repeat split.
  - by rewrite Hr1, Hr2, app_assoc.
  - by rewrite Hc2, Hc1, rev_app_distr, app_assoc.
  - by apply Forall_app_2.
Qed.

Lemma Advances_lengths (A : N -> Prop) (x y : MatchState) :
  Advances A x y ->
  exists n, length (remaining x) = (n + length (remaining y))%nat /\
            endIndex y = (n + endIndex x)%nat.
Proof.
  intros (w & Hr & Hc & _). exists (length w). unfold endIndex.
  by rewrite Hr, Hc, !length_app, length_rev.
Qed.

Lemma Step_Advances (A : N -> Prop) (P : N -> bool) (x y : MatchState) :
  (forall ch, P ch = true -> A ch) -> Step P x y -> Advances A x y.
Proof.
  intros HP (ch & rest & Hx & Hch & ->). exists [ch]. simpl.
  repeat split; [done|]. constructor; [by apply HP|constructor].
Qed.

Lemma Iterate_Advances (A : N -> Prop) (R : MatchState -> MatchState -> Prop)
    (min : nat) (max : option nat) (x z : MatchState) :
  (forall x y, R x y -> Advances A x y) ->
  Iterate R min max x z -> Advances A x z.
Proof.
  intros HR. induction 1 as [| |min max x y z _ Hxy _ _ IH];
    [apply Advances_refl..|].
  eapply Advances_trans; [by apply HR|done].
Qed.

Lemma Matches_Advances (A : N -> Prop) (p : Pattern) :
  charsIn A p -> forall x y, Matches p x y -> Advances A x y.
Proof.
  induction p as [|a IHa t IHt|ch|ranges|d IHd|a IHa min max|]; simpl; intros Hin x y.
  - intros ->. apply Advances_refl.
  - destruct Hin as [Ha Ht]. intros (y' & H1 & H2).
    eapply Advances_trans; [by apply IHa|by apply IHt].
  - apply Step_Advances. by intros c ->%N.eqb_eq.
  - by apply Step_Advances.
  - by apply IHd.
  - apply Iterate_Advances. by apply IHa.
  - intros [-> _]. apply Advances_refl.
Qed.

Lemma charsIn_True (p : Pattern) : charsIn (fun _ => True) p.
Proof. induction p; simpl; auto. Qed.

Lemma Matches_moves_forward (p : Pattern) (x y : MatchState) :
  Matches p x y -> Advances (fun _ => True) x y.
Proof. apply Matches_Advances, charsIn_True. Qed.

Lemma CharacterSetMatcher_sound (P : N -> bool) :
  SoundFor (Step P) (CharacterSetMatcher P).
Proof.
  intros x c e. unfold CharacterSetMatcher.
  destruct (remaining x) as [|ch rest] eqn:Hx; [done|].
  destruct (P ch) eqn:Hch; [|done]. intros Hc.
  eexists. split; [|exact Hc]. by exists ch, rest.
Qed.

Lemma CharacterSetMatcher_complete (P : N -> bool) :
  CompleteFor (Step P) (CharacterSetMatcher P).
Proof.
  intros x y c (ch & rest & Hx & Hch & ->) Hc.
  unfold CharacterSetMatcher. by rewrite Hx, Hch.
Qed.

Lemma RepeatMatcher_sound (R : MatchState -> MatchState -> Prop) (m : Matcher) :
  SoundFor R m ->
  forall fuel min max, SoundFor (Iterate R min max) (RepeatMatcher fuel m min max).
Proof.
  intros Hm fuel. induction fuel as [|fuel IH]; intros min max x c e; simpl; [done|].
  assert (forall y,
    (if Nat.eqb min 0 && Nat.eqb (endIndex y) (endIndex x) then None
     else RepeatMatcher fuel m (Nat.pred min) (Nat.pred <$> max) y c) = Some e ->
    R x y -> max <> Some O -> exists z, Iterate R min max x z /\ c z = Some e) as Hd.
  { intros y Hy Hxy Hmax.
    destruct (Nat.eqb min 0 && Nat.eqb (endIndex y) (endIndex x)) eqn:Hempty; [done|].
    apply IH in Hy as (z & Hyz & Hz). exists z. split; [|done].
    eapply iter_more; [done|done| |done].
    intros ->. simpl in Hempty. by apply Nat.eqb_neq in Hempty. }
  assert (max <> Some O ->
    (if negb (Nat.eqb min 0)
     then m x (fun y =>
            if Nat.eqb min 0 && Nat.eqb (endIndex y) (endIndex x) then None
            else RepeatMatcher fuel m (Nat.pred min) (Nat.pred <$> max) y c)
     else match m x (fun y =>
            if Nat.eqb min 0 && Nat.eqb (endIndex y) (endIndex x) then None
            else RepeatMatcher fuel m (Nat.pred min) (Nat.pred <$> max) y c) with
          | Some z => Some z
          | None => c x
          end) = Some e ->
    exists z, Iterate R min max x z /\ c z = Some e) as Hbody.
  { intros Hmax. destruct (Nat.eqb min 0) eqn:Hmin; simpl.
    - destruct (m x _) as [z|] eqn:Hmx.
      + intros [= ->]. apply Hm in Hmx as (y & Hxy & Hy).
        eapply Hd; [exact Hy|done|done].
      + intros Hc. apply Nat.eqb_eq in Hmin as ->. exists x. split; [constructor|done].
    - intros Hmx. apply Hm in Hmx as (y & Hxy & Hy).
      eapply Hd; [exact Hy|done|done]. }
  destruct max as [[|max]|]; [|by apply Hbody..].
  intros Hc. exists x. split; [constructor|done].
Qed.

Lemma RepeatMatcher_complete (R : MatchState -> MatchState -> Prop) (m : Matcher) :
  (forall x y, R x y -> Advances (fun _ => True) x y) ->
  CompleteFor R m ->
  forall min max x z, Iterate R min max x z ->
  forall fuel c, is_Some (c z) -> (min + length (remaining x) < fuel)%nat ->
  is_Some (RepeatMatcher fuel m min max x c).
Proof.
  intros Hadv Hm min max x z.
  induction 1 as [min x|max x|min max x y z Hmax Hxy Hne Hyz IH]; intros fuel c Hc Hfuel.
  - destruct fuel as [|fuel]; [lia|]. done.
  - destruct fuel as [|fuel]; [lia|]. simpl.
    destruct max as [[|max]|]; [done|..]; by destruct (m x _).
  - destruct fuel as [|fuel]; [lia|]. simpl.
    destruct (Advances_lengths _ _ _ (Hadv _ _ Hxy)) as (n & Hlen & Hend).
    assert (is_Some (m x (fun y =>
              if Nat.eqb min 0 && Nat.eqb (endIndex y) (endIndex x) then None
              else RepeatMatcher fuel m (Nat.pred min) (Nat.pred <$> max) y c))) as Hmx.
    { eapply Hm; [exact Hxy|].
      destruct (Nat.eqb min 0 && Nat.eqb (endIndex y) (endIndex x)) eqn:Hempty.
      - apply andb_prop in Hempty as [->%Nat.eqb_eq Hsame%Nat.eqb_eq].
        by destruct Hne.
      - apply IH; [done|]. destruct min as [|min]; simpl in *; [|lia].
        specialize (Hne eq_refl). lia. }
    destruct Hmx as [e Hmx].
    destruct max as [[|max]|]; [done|..];
      destruct (Nat.eqb min 0); simpl in *; by rewrite Hmx.
Qed.

Theorem CompileSubpattern_sound (p : Pattern) :
  SoundFor (Matches p) (CompileSubpattern p).
Proof.
  induction p as [|a IHa t IHt|ch|ranges|d IHd|a IHa min max|]; simpl.
  - intros x c e Hc. by exists x.
  - intros x c e Hc. apply IHa in Hc as (y & Hxy & Hc).
    apply IHt in Hc as (z & Hyz & Hc). exists z. split; [by exists y|done].
  - apply CharacterSetMatcher_sound.
  - apply CharacterSetMatcher_sound.
  - intros x c e Hc. by apply IHd in Hc.
  - intros x c e Hc. by eapply RepeatMatcher_sound in Hc.
  - intros x c e. destruct (atWordBoundary x) eqn:Hb; [|done].
    intros Hc. by exists x.
Qed.

Theorem CompileSubpattern_complete (p : Pattern) :
  CompleteFor (Matches p) (CompileSubpattern p).
Proof.
  induction p as [|a IHa t IHt|ch|ranges|d IHd|a IHa min max|]; simpl.
  - by intros x y c ->.
  - intros x z c (y & Hxy & Hyz) Hc. eapply IHa; [exact Hxy|]. by eapply IHt.
  - apply CharacterSetMatcher_complete.
  - apply CharacterSetMatcher_complete.
  - intros x y c Hxy Hc. by eapply IHd.
  - intros x z c Hxz Hc.
    eapply RepeatMatcher_complete; [apply Matches_moves_forward|done|done|done|lia].
  - intros x y c [-> Hb] Hc. by rewrite Hb.
Qed.

(** ** The search of [exec] and the whole-string test *)

Lemma execFrom_unfold (m : Matcher) (before after : jsstring) :
  execFrom m before after =
    match m {| consumed := before; remaining := after |} Some with
    | Some y => Some {| index := length before;
                        matched := take (endIndex y - length before) after |}
    | None =>
        match after with
        | [] => None
        | ch :: after' => execFrom m (ch :: before) after'
        end
    end.
Proof. by destruct after. Qed.

Lemma execFrom_matched_length (m : Matcher) (before after : jsstring) (r : MatchResult) :
  execFrom m before after = Some r -> (length (matched r) <= length after)%nat.
Proof.
  revert before; induction after as [|ch after IH]; intros before;
    rewrite execFrom_unfold; destruct (m _ Some) as [y|]; try done.
  - intros [= <-]. cbn [matched]. rewrite length_take. apply Nat.le_min_r.
  - intros [= <-]. cbn [matched]. rewrite length_take. apply Nat.le_min_r.
  - intros Hr%IH. simpl. lia.
Qed.

(** The test of the extension holds exactly when the matcher, started at
    index 0, stops at the end of the input. *)
Lemma fullLengthMatch_start (R : Pattern) (s : jsstring) :
  fullLengthMatch R s = true <->
  exists y, CompileSubpattern R {| consumed := []; remaining := s |} Some = Some y /\
            remaining y = [].
Proof.
  unfold fullLengthMatch, test, String_match, RegExpBuiltinExec.
  rewrite execFrom_unfold.
  destruct (CompileSubpattern R _ Some) as [y|] eqn:Hm.
  - pose proof Hm as Hs. apply CompileSubpattern_sound in Hs as (y' & Hxy & [= ->]).
    apply Matches_moves_forward in Hxy as (w & Hr & Hc & _). simpl in Hr, Hc.
    unfold endIndex. rewrite Hc, app_nil_r, length_rev. simpl.
    rewrite Nat.sub_0_r, Hr, take_app_length, length_app. split.
    + intros Hlen%Nat.eqb_eq. exists y. split; [done|].
      apply length_zero_iff_nil. lia.
    + intros (? & [= <-] & ->). apply Nat.eqb_eq. simpl. lia.
  - split; [|by intros (? & ? & _)].
    destruct s as [|ch s]; [done|].
    destruct (execFrom _ [ch] s) as [r|] eqn:Hr; [|done].
    apply execFrom_matched_length in Hr. simpl.
    intros Hlen%Nat.eqb_eq. lia.
Qed.

Lemma fullLengthMatch_exec (R : Pattern) (s : jsstring) :
  fullLengthMatch R s = true <->
  RegExpBuiltinExec R s = Some {| index := 0; matched := s |}.
Proof.
  split.
  - intros (y & Hm & Hy)%fullLengthMatch_start.
    unfold RegExpBuiltinExec. rewrite execFrom_unfold, Hm.
    apply CompileSubpattern_sound in Hm as (y' & Hxy & [= ->]).
    apply Matches_moves_forward in Hxy as (w & Hr & Hc & _). simpl in Hr, Hc.
    rewrite Hy, app_nil_r in Hr. subst w.
    unfold endIndex. rewrite Hc, app_nil_r, length_rev. simpl.
    by rewrite Nat.sub_0_r, firstn_all.
  - intros Hexec. unfold fullLengthMatch, test, String_match. rewrite Hexec. simpl.
    apply Nat.eqb_refl.
Qed.

(** A starred class followed by nothing runs to the end of an input made of
    characters of the class. *)
Lemma star_class_to_end (ranges : list (N * N)) (fuel : nat) (x : MatchState) :
  Forall (fun ch => inRanges ranges ch = true) (remaining x) ->
  (length (remaining x) < fuel)%nat ->
  RepeatMatcher fuel (CharacterSetMatcher (inRanges ranges)) 0 None x Some =
    Some {| consumed := rev (remaining x) ++ consumed x; remaining := [] |}.
Proof.
  revert x; induction fuel as [|fuel IH]; intros [before after] Hall Hfuel; [lia|].
  cbn [RepeatMatcher negb Nat.eqb andb remaining consumed] in *.
  unfold CharacterSetMatcher at 1. cbn [remaining consumed].
  destruct Hall as [|ch rest Hch Hrest]; [done|].
  rewrite Hch. unfold endIndex. cbn [consumed length].
  rewrite (proj2 (Nat.eqb_neq (S (length before)) (length before))) by lia.
  rewrite IH; cbn [remaining consumed length] in *; [|done|lia].
  simpl. by rewrite <- app_assoc.
Qed.

(** The classes and characters of the URL expression all lie in the class of
    its last term. *)
Lemma rangesWithin_sound (within ranges : list (N * N)) (ch : N) :
  rangesWithin within ranges = true ->
  inRanges ranges ch = true -> inRanges within ch = true.
Proof.
  unfold rangesWithin, inRanges. rewrite forallb_forall, !existsb_exists.
  intros Hall (r & Hr & Hch). pose proof (Hall r Hr) as Hex.
  apply existsb_exists in Hex as (w & Hw & Hrw).
  exists w. split; [done|]. unfold between in *.
  apply andb_true_iff. rewrite !N.leb_le. by_ranges.
Qed.

Lemma charsWithin_charsIn (within : list (N * N)) (p : Pattern) :
  charsWithin within p = true -> charsIn (fun ch => inRanges within ch = true) p.
Proof.
  induction p as [|a IHa t IHt|ch|ranges|d IHd|a IHa min max|]; simpl; try done.
  - intros [Ha Ht]%andb_prop. split; [by apply IHa|by apply IHt].
  - intros Hranges ch. by apply rangesWithin_sound.
Qed.

Lemma urlRegex_chars :
  charsIn (fun ch => inRanges pathClass ch = true) urlRegexFromWorkingExtension.
Proof. apply charsWithin_charsIn. reflexivity. Qed.

(** Whether the matcher's first match covers the input does not depend on
    the backtracking order: it does as soon as the pattern can match the
    whole input at all. *)
Theorem fullLengthMatch_FullMatch (s : jsstring) :
  fullLengthMatch urlRegexFromWorkingExtension s = true <->
  FullMatch urlRegexFromWorkingExtension s.
Proof.
  rewrite fullLengthMatch_start. split.
  - intros (y & Hm & Hy). apply CompileSubpattern_sound in Hm as (y' & Hxy & [= ->]).
    by exists y.
  - intros (yf & Hfull & Hyf).
    pose proof (Matches_Advances _ _ urlRegex_chars _ _ Hfull) as (w & Hr & _ & Hall).
    simpl in Hr. rewrite Hyf, app_nil_r in Hr. subst w.
    set (x0 := {| consumed := []; remaining := s |}) in *.
    set (path := Quantified (CharacterClass pathClass) 0 None).
    assert (forall y, Advances (fun _ => True) x0 y ->
              CompileSubpattern (Group path) y Some =
                Some {| consumed := rev (remaining y) ++ consumed y; remaining := [] |})
      as Hpath.
    { intros y (w & Hr & _). simpl in Hr. simpl.
      apply star_class_to_end; [|lia].
      rewrite Hr in Hall. by apply Forall_app in Hall as [_ ?]. }
    revert Hfull.
    match goal with |- context [CompileSubpattern ?R] =>
      match eval cbv [urlRegexFromWorkingExtension sequence fold_left] in R with
      | Seq ?P ?T => change R with (Seq P T); set (head := P)
      end
    end.
    intros (y & Hhead & Htail).
    assert (is_Some (CompileSubpattern head x0
                       (fun y => CompileSubpattern (Group path) y Some))) as [e He].
    { apply (CompileSubpattern_complete head x0 y _ Hhead).
      rewrite Hpath; [done|]. by apply (Matches_moves_forward head). }
    exists e. split; [exact He|].
    apply CompileSubpattern_sound in He as (y' & Hy' & He).
    rewrite Hpath in He; [|by apply (Matches_moves_forward head)].
    by injection He as <-.
Qed.

(** An input classified as a URL consists of characters of the last class
    of the expression; in particular it has no space, so that two or more
    terms are never a direct URL. *)
Lemma direct_url_chars (s : jsstring) :
  fullLengthMatch urlRegexFromWorkingExtension s = true ->
  Forall (fun ch => inRanges pathClass ch = true) s.
Proof.
  intros (y & Hfull & Hy)%fullLengthMatch_FullMatch.
  apply (Matches_Advances _ _ urlRegex_chars) in Hfull as (w & Hr & _ & Hall).
  simpl in Hr. rewrite Hy, app_nil_r in Hr. by subst w.
Qed.

Lemma several_terms_not_direct (first second : jsstring) (others : list jsstring) :
  fullLengthMatch urlRegexFromWorkingExtension
    (join (lit " ") (first :: second :: others)) = false.
Proof.
  apply not_true_is_false. intros Hall%direct_url_chars.
  rewrite join_cons in Hall. apply Forall_app in Hall as [_ Hall].
  by apply Forall_cons_1 in Hall as [Hspace _].
Qed.

(** The matcher on some inputs. *)
Example exec_examples :
  String_match (lit "example.com") urlRegexFromWorkingExtension
    = Some {| index := 0; matched := lit "example.com" |} /\
  String_match (lit "https://www.example.com/a?b=c") urlRegexFromWorkingExtension
    = Some {| index := 0; matched := lit "https://www.example.com/a?b=c" |} /\
  String_match (lit "see example.com now") urlRegexFromWorkingExtension
    = Some {| index := 4; matched := lit "example.com" |} /\
  String_match (lit "a.b.cdefghi") urlRegexFromWorkingExtension
    = Some {| index := 0; matched := lit "a.b.cdefghi" |} /\
  String_match (lit "a.bcdefghi") urlRegexFromWorkingExtension = None /\
  String_match (lit "http://localhost") urlRegexFromWorkingExtension = None /\
  String_match (lit "bil") urlRegexFromWorkingExtension = None.
Proof. repeat split; vm_compute; reflexivity. Qed.

(** ** The engine table *)

(** Duplicate prefixes overwrite one another: the table holds, for each key,
    what the last entry with that prefix says. *)
Lemma populate_lookup {V} (f : Config.Engine -> V) (config : list Config.Engine)
    (key : jsstring) (m0 : gmap (list N) V) :
  fold_left (fun m engine => <[Config.prefix engine := f engine]> m) config m0 !! key
  = match lastWrite key config with
    | Some engine => Some (f engine)
    | None => m0 !! key
    end.
Proof.
  revert m0; induction config as [|engine config IH]; intros m0; [done|].
  simpl. rewrite IH. destruct (lastWrite key config); [done|].
  rewrite lookup_insert. case_bool_decide.
  - by rewrite decide_True.
  - by rewrite decide_False.
Qed.

Lemma lastWrite_absent (config : list Config.Engine) (key : jsstring) :
  Forall (fun engine => Config.prefix engine <> key) config ->
  lastWrite key config = None.
Proof.
  induction 1 as [|engine config Hne _ IH]; [done|].
  simpl. rewrite IH. by rewrite bool_decide_eq_false_2.
Qed.

Lemma Extension_table_lookup (extension : ExtensionMeta) (config : list Config.Engine)
    (key : jsstring) :
  Extension._searchEnginesMap (Extension.constructor extension config) !! key
  = match lastWrite key config with
    | Some engine => Some (Config.url engine)
    | None => if decide (key = lit "_default_") then Some googleTemplate else None
    end.
Proof.
  unfold Extension.constructor. cbn [Extension._searchEnginesMap].
  unfold Map_has. rewrite (populate_lookup Config.url), lookup_empty.
  destruct (lastWrite (lit "_default_") config) as [d|] eqn:Hd; cbn [negb].
  - rewrite (populate_lookup Config.url), lookup_empty.
    destruct (lastWrite key config) eqn:Hk; [done|].
    case_decide as Hkey; [|done]. subst key. congruence.
  - rewrite lookup_insert, (populate_lookup Config.url), lookup_empty.
    case_decide as Hkey.
    + subst key. rewrite Hd. by rewrite decide_True.
    + rewrite decide_False by done. done.
Qed.

Lemma Part000_table_lookup (extension : ExtensionMeta) (config : list Config.Engine)
    (key : jsstring) :
  Part000._searchEnginesMap (Part000.constructor extension config) !! key
  = match lastWrite key config with
    | Some engine =>
        Some {| Part000.url := Config.url engine;
                Part000.empty_query_url := Config.empty_query_url engine |}
    | None =>
        if decide (key = lit "_default_")
        then Some {| Part000.url := googleTemplate; Part000.empty_query_url := None |}
        else None
    end.
Proof.
  unfold Part000.constructor. cbn [Part000._searchEnginesMap].
  unfold Map_has.
  set (f := fun engine => {| Part000.url := Config.url engine;
                             Part000.empty_query_url := Config.empty_query_url engine |}).
  rewrite (populate_lookup f), lookup_empty.
  destruct (lastWrite (lit "_default_") config) as [d|] eqn:Hd; cbn [negb].
  - rewrite (populate_lookup f), lookup_empty.
    destruct (lastWrite key config) eqn:Hk; [done|].
    case_decide as Hkey; [|done]. subst key. congruence.
  - rewrite lookup_insert, (populate_lookup f), lookup_empty.
    case_decide as Hkey.
    + subst key. rewrite Hd. by rewrite decide_True.
    + rewrite decide_False by done. done.
Qed.

Lemma Extension_default_present (extension : ExtensionMeta) (config : list Config.Engine) :
  is_Some (Extension._searchEnginesMap (Extension.constructor extension config)
             !! lit "_default_").
Proof.
  rewrite Extension_table_lookup. destruct (lastWrite _ _); [done|].
  by rewrite decide_True.
Qed.

Lemma Part000_default_present (extension : ExtensionMeta) (config : list Config.Engine) :
  is_Some (Part000._searchEnginesMap (Part000.constructor extension config)
             !! lit "_default_").
Proof.
  rewrite Part000_table_lookup. destruct (lastWrite _ _); [done|].
  by rewrite decide_True.
Qed.

Lemma Extension_after_table `{Unicode} (calls : list Extension.Call)
    (this : Extension.PrefixWebSearchProvider) :
  Extension._searchEnginesMap (fold_left Extension.after calls this)
  = Extension._searchEnginesMap this.
Proof.
  revert this; induction calls as [|call calls IH]; intros this; [done|].
  simpl. rewrite IH. destruct call; try done;
    unfold Extension.after, Extension.getSubsearchResultSet, Extension.getInitialResultSet;
    by destruct (Nat.eqb (length terms) 0).
Qed.

Lemma Part000_after_table `{Unicode} (calls : list Part000.Call)
    (this : Part000.PrefixWebSearchProvider) :
  Part000._searchEnginesMap (fold_left Part000.after calls this)
  = Part000._searchEnginesMap this.
Proof.
  revert this; induction calls as [|call calls IH]; intros this; [done|].
  simpl. rewrite IH. destruct call; try done;
    unfold Part000.after, Part000.getSubsearchResultSet, Part000.getInitialResultSet;
    by destruct (Nat.eqb (length terms) 0).
Qed.

(** ** What [activateResult] substitutes *)

Lemma Extension_searchUrl_substituted (template : jsstring) (queryTerms : list jsstring) :
  Extension.searchUrl (Some template) queryTerms = substituted template queryTerms.
Proof.
  unfold Extension.searchUrl, substituted.
  destruct (searchQueryParam queryTerms) as [q|] eqn:Hq; [|done]. simpl.
  by rewrite String_replace_plain; [|by eapply searchQueryParam_no_dollar].
Qed.

Lemma Part000_searchUrl_targetOf (engine : Part000.EngineConfig)
    (queryTerms : list jsstring) :
  Part000.searchUrl (Some engine) queryTerms = targetOf engine queryTerms.
Proof.
  unfold Part000.searchUrl, targetOf, substituted.
  destruct queryTerms as [|t queryTerms]; simpl.
  - destruct (Part000.empty_query_url engine) as [[|c home]|]; simpl; try done;
      by rewrite String_replace_plain; [|by repeat constructor].
  - destruct (searchQueryParam (t :: queryTerms)) as [q|] eqn:Hq; [|done]. simpl.
    by rewrite String_replace_plain; [|by eapply searchQueryParam_no_dollar].
Qed.

Lemma Part000_selectEngine_chosen `{Unicode} (this : Part000.PrefixWebSearchProvider)
    (term : jsstring) (rest : list jsstring) :
  Part000.selectEngine this (term :: rest)
  = chosenByPrefix (Part000._searchEnginesMap this) (toLowerCase term) (term :: rest).
Proof.
  unfold Part000.selectEngine, chosenByPrefix, Map_has, Map_get. simpl.
  by destruct (_ !! toLowerCase term).
Qed.

Lemma Extension_selectEngine_chosen `{Unicode} (this : Extension.PrefixWebSearchProvider)
    (term : jsstring) (rest : list jsstring) :
  Extension.selectEngine this (term :: rest)
  = chosenByPrefixBeforeTerms (Extension._searchEnginesMap this) (toLowerCase term)
      (term :: rest).
Proof.
  unfold Extension.selectEngine, chosenByPrefixBeforeTerms, Map_has, Map_get.
  cbn [head fmap option_fmap option_map].
  destruct (_ !! toLowerCase term); [|done].
  by destruct (1 <? length (term :: rest))%nat.
Qed.

Lemma substituted_wellFormed (template : jsstring) (queryTerms : list jsstring) :
  forallb wellFormed queryTerms = true ->
  exists url, substituted template queryTerms = Normal url.
Proof.
  intros [q Hq]%searchQueryParam_wellFormed. unfold substituted. rewrite Hq. by eexists.
Qed.

Lemma targetOf_wellFormed (engine : Part000.EngineConfig) (queryTerms : list jsstring) :
  forallb wellFormed queryTerms = true ->
  exists url, targetOf engine queryTerms = Normal url.
Proof.
  intros Hwf. unfold targetOf.
  destruct queryTerms as [|t queryTerms], (Part000.empty_query_url engine) as [[|c home]|];
    by eauto using substituted_wellFormed.
Qed.

Lemma chosenByPrefix_terms {V} (table : gmap (list N) V) (key : jsstring)
    (terms : list jsstring) :
  snd (chosenByPrefix table key terms) = terms \/
  snd (chosenByPrefix table key terms) = drop 1 terms.
Proof. unfold chosenByPrefix. destruct (table !! key); simpl; auto. Qed.

Lemma chosenByPrefixBeforeTerms_terms {V} (table : gmap (list N) V) (key : jsstring)
    (terms : list jsstring) :
  snd (chosenByPrefixBeforeTerms table key terms) = terms \/
  snd (chosenByPrefixBeforeTerms table key terms) = drop 1 terms.
Proof.
  unfold chosenByPrefixBeforeTerms.
  destruct (table !! key); [destruct (1 <? length terms)%nat|]; simpl; auto.
Qed.

Lemma wellFormed_drop (terms : list jsstring) :
  forallb wellFormed terms = true -> forallb wellFormed (drop 1 terms) = true.
Proof. destruct terms as [|t terms]; [done|]. simpl. by intros [_ ?]%andb_prop. Qed.

(** C1, as amended. For every non-empty term list whose space-joined form is
    not classified as a direct URL, and every configuration the provider is
    built from: [src/unnamed/part_000] selects the entry under
    lowercase(terms[0]) when the table has that key, with terms[1:] as the
    query terms, and the [_default_] entry with all terms otherwise;
    [src/extension.js] does the same, but honours the key only when the list
    has more than one term.  The selected entry always exists.  The target
    URL is the selected template with its first [{query}] replaced by the
    percent-encoded query terms joined by [+]; in [src/unnamed/part_000] it
    is instead the entry's [empty_query_url] when no query terms are left
    and that field is a non-empty string.  When no term has an unpaired
    surrogate the encoding does not throw and the call completes. *)
Theorem C1_selection_and_target `{Unicode} (extension : ExtensionMeta)
    (config : list Config.Engine) (resultId : jsstring) (terms : list jsstring) :
  terms <> [] ->
  fullLengthMatch urlRegexFromWorkingExtension (join (lit " ") terms) = false ->
  let key := toLowerCase (hd [] terms) in
  (let this := Part000.constructor extension config in
   exists engine queryTerms,
     chosenByPrefix (Part000._searchEnginesMap this) key terms = (Some engine, queryTerms) /\
     Part000.selectEngine this terms = (Some engine, queryTerms) /\
     targetUrl <$> Part000.activateResult this resultId terms = targetOf engine queryTerms)
  /\
  (let this := Extension.constructor extension config in
   exists template queryTerms,
     chosenByPrefixBeforeTerms (Extension._searchEnginesMap this) key terms
       = (Some template, queryTerms) /\
     Extension.selectEngine this terms = (Some template, queryTerms) /\
     targetUrl <$> Extension.activateResult this resultId terms
       = substituted template queryTerms)
  /\
  (forallb wellFormed terms = true ->
   (exists activation,
      Part000.activateResult (Part000.constructor extension config) resultId terms
      = Normal activation) /\
   (exists activation,
      Extension.activateResult (Extension.constructor extension config) resultId terms
      = Normal activation)).
Proof.
  intros Hterms Hsearch. destruct terms as [|term rest]; [done|]. cbn [hd]. cbv zeta.
  assert (forall queryTerms,
    queryTerms = term :: rest \/ queryTerms = drop 1 (term :: rest) ->
    forallb wellFormed (term :: rest) = true -> forallb wellFormed queryTerms = true)
    as Hquery.
  { intros ? [->| ->] ?; [done|by apply wellFormed_drop]. }
  assert (let this := Part000.constructor extension config in
          exists engine queryTerms,
            chosenByPrefix (Part000._searchEnginesMap this) (toLowerCase term)
              (term :: rest) = (Some engine, queryTerms) /\
            Part000.selectEngine this (term :: rest) = (Some engine, queryTerms) /\
            Part000.activateResult this resultId (term :: rest)
              = url ← targetOf engine queryTerms;
                Normal {| isDirectUrl := false; targetUrl := url;
                          cmd := launchCommand false url |})
    as (engine & query1 & Hchosen1 & Hsel1 & Hact1).
  { destruct (Part000_default_present extension config) as [fallback Hdefault].
    set (this := Part000.constructor extension config) in *.
    assert (exists engine queryTerms,
      chosenByPrefix (Part000._searchEnginesMap this) (toLowerCase term) (term :: rest)
        = (Some engine, queryTerms)) as (engine & queryTerms & Hchosen).
    { unfold chosenByPrefix. destruct (_ !! toLowerCase term) as [engine|]; [by eauto|].
      rewrite Hdefault. by eauto. }
    exists engine, queryTerms. rewrite Part000_selectEngine_chosen. repeat split; try done.
    unfold Part000.activateResult. rewrite Hsearch, Part000_selectEngine_chosen, Hchosen.
    by rewrite Part000_searchUrl_targetOf. }
  assert (let this := Extension.constructor extension config in
          exists template queryTerms,
            chosenByPrefixBeforeTerms (Extension._searchEnginesMap this) (toLowerCase term)
              (term :: rest) = (Some template, queryTerms) /\
            Extension.selectEngine this (term :: rest) = (Some template, queryTerms) /\
            Extension.activateResult this resultId (term :: rest)
              = url ← substituted template queryTerms;
                Normal {| isDirectUrl := false; targetUrl := url;
                          cmd := launchCommand false url |})
    as (template & query2 & Hchosen2 & Hsel2 & Hact2).
  { destruct (Extension_default_present extension config) as [fallback Hdefault].
    set (this := Extension.constructor extension config) in *.
    assert (exists template queryTerms,
      chosenByPrefixBeforeTerms (Extension._searchEnginesMap this) (toLowerCase term)
        (term :: rest) = (Some template, queryTerms)) as (template & queryTerms & Hchosen).
    { unfold chosenByPrefixBeforeTerms.
      destruct (_ !! toLowerCase term) as [template|]; [|rewrite Hdefault; by eauto].
      destruct (1 <? length (term :: rest))%nat; [by eauto|]. rewrite Hdefault. by eauto. }
    exists template, queryTerms. rewrite Extension_selectEngine_chosen.
    repeat split; try done.
    unfold Extension.activateResult. rewrite Hsearch, Extension_selectEngine_chosen, Hchosen.
    by rewrite Extension_searchUrl_substituted. }
  split; [|split].
  - exists engine, query1. repeat split; try done.
    rewrite Hact1. by destruct (targetOf engine query1).
  - exists template, query2. repeat split; try done.
    rewrite Hact2. by destruct (substituted template query2).
  - intros Hwf. split.
    + destruct (targetOf_wellFormed engine query1) as [url Hurl].
      { apply Hquery; [|done].
        pose proof (chosenByPrefix_terms
                      (Part000._searchEnginesMap (Part000.constructor extension config))
                      (toLowerCase term) (term :: rest)) as Hq.
        by rewrite Hchosen1 in Hq. }
      rewrite Hact1, Hurl. by eexists.
    + destruct (substituted_wellFormed template query2) as [url Hurl].
      { apply Hquery; [|done].
        pose proof (chosenByPrefixBeforeTerms_terms
                      (Extension._searchEnginesMap (Extension.constructor extension config))
                      (toLowerCase term) (term :: rest)) as Hq.
        by rewrite Hchosen2 in Hq. }
      rewrite Hact2, Hurl. by eexists.
Qed.

Lemma C1_selection_and_target_witness :
  let terms := [lit "GG"; lit "cats"] in
  terms <> [] /\
  fullLengthMatch urlRegexFromWorkingExtension (join (lit " ") terms) = false /\
  targetUrl <$> @Part000.activateResult asciiCase (Part000.constructor shell sampleConfig)
                  (lit "custom-search") terms
    = Normal (lit "https://www.google.com/search?q=cats") /\
  targetUrl <$> @Extension.activateResult asciiCase (Extension.constructor shell sampleConfig)
                  (lit "custom-search") terms
    = Normal (lit "https://www.google.com/search?q=cats").
Proof.
  assert ([lit "GG"; lit "cats"] <> []) as Hterms by done.
  assert (fullLengthMatch urlRegexFromWorkingExtension
            (join (lit " ") [lit "GG"; lit "cats"]) = false) as Hsearch
    by (vm_compute; reflexivity).
  destruct (@C1_selection_and_target asciiCase shell sampleConfig (lit "custom-search")
              [lit "GG"; lit "cats"] Hterms Hsearch)
    as [(engine & q1 & Hc1 & _ & Ht1) [(template & q2 & Hc2 & _ & Ht2) _]].
  split; [exact Hterms|]. split; [exact Hsearch|]. split.
  - rewrite Ht1. vm_compute in Hc1. injection Hc1 as <- <-. vm_compute. reflexivity.
  - rewrite Ht2. vm_compute in Hc2. injection Hc2 as <- <-. vm_compute. reflexivity.
Defined.

(** C1 as stated fails in both revisions.  In [src/unnamed/part_000] the lone
    term [bil], whose entry has an [empty_query_url], is sent to that URL and
    not to the filled-in template; in [src/extension.js] the lone term [gg]
    is searched with the [_default_] engine although the table has the key
    [gg]. *)
Lemma C1_counterexample :
  (let this := Part000.constructor shell sampleConfig in
   let terms := [lit "bil"] in
   terms <> [] /\
   fullLengthMatch urlRegexFromWorkingExtension (join (lit " ") terms) = false /\
   templateTarget Part000.url
     (chosenByPrefix (Part000._searchEnginesMap this) (@toLowerCase asciiCase (lit "bil")) terms)
     = Normal (lit "https://search.bilibili.com/all?keyword=") /\
   targetUrl <$> @Part000.activateResult asciiCase this (lit "custom-search") terms
     = Normal (lit "https://www.bilibili.com") /\
   targetUrl <$> @Part000.activateResult asciiCase this (lit "custom-search") terms
     <> templateTarget Part000.url
          (chosenByPrefix (Part000._searchEnginesMap this) (@toLowerCase asciiCase (lit "bil")) terms))
  /\
  (let this := Extension.constructor shell sampleConfig in
   let terms := [lit "gg"] in
   terms <> [] /\
   fullLengthMatch urlRegexFromWorkingExtension (join (lit " ") terms) = false /\
   templateTarget (fun template => template)
     (chosenByPrefix (Extension._searchEnginesMap this) (@toLowerCase asciiCase (lit "gg")) terms)
     = Normal (lit "https://www.google.com/search?q=") /\
   targetUrl <$> @Extension.activateResult asciiCase this (lit "custom-search") terms
     = Normal (lit "https://duckduckgo.com/?q=gg") /\
   targetUrl <$> @Extension.activateResult asciiCase this (lit "custom-search") terms
     <> templateTarget (fun template => template)
          (chosenByPrefix (Extension._searchEnginesMap this) (@toLowerCase asciiCase (lit "gg")) terms)).
Proof.
  split; simpl; repeat split; try done; try (vm_compute; reflexivity);
    vm_compute; discriminate.
Qed.

(** C2. For every term list, the classification as a direct URL holds
    exactly when the match of the URL expression on the space-joined terms
    starts at index 0 and is the whole joined string, which is exactly when
    the expression can match the whole string at all; and whenever the
    classification holds, both revisions of [activateResult] take the joined
    input unchanged as the target URL. *)
Theorem C2_direct_url_is_whole_match `{Unicode} (terms : list jsstring) :
  let fullInputString := join (lit " ") terms in
  (fullLengthMatch urlRegexFromWorkingExtension fullInputString = true <->
   String_match fullInputString urlRegexFromWorkingExtension
     = Some {| index := 0; matched := fullInputString |}) /\
  (fullLengthMatch urlRegexFromWorkingExtension fullInputString = true <->
   FullMatch urlRegexFromWorkingExtension fullInputString) /\
  (fullLengthMatch urlRegexFromWorkingExtension fullInputString = true ->
   (forall this resultId,
      Extension.activateResult this resultId terms
      = Normal {| isDirectUrl := true; targetUrl := fullInputString;
                  cmd := launchCommand true fullInputString |}) /\
   (forall this resultId,
      Part000.activateResult this resultId terms
      = Normal {| isDirectUrl := true; targetUrl := fullInputString;
                  cmd := launchCommand true fullInputString |})).
Proof.
  intros s. split; [apply fullLengthMatch_exec|]. split; [apply fullLengthMatch_FullMatch|].
  intros Hdirect. split; intros this resultId.
  - unfold Extension.activateResult. fold s. by rewrite Hdirect.
  - unfold Part000.activateResult. fold s. by rewrite Hdirect.
Qed.

Lemma C2_direct_url_is_whole_match_witness :
  fullLengthMatch urlRegexFromWorkingExtension (join (lit " ") [lit "www.example.com/a?b=c"])
    = true /\
  FullMatch urlRegexFromWorkingExtension (lit "www.example.com/a?b=c") /\
  @Part000.activateResult asciiCase (Part000.constructor shell sampleConfig)
    (lit "direct-url") [lit "www.example.com/a?b=c"]
  = Normal {| isDirectUrl := true; targetUrl := lit "www.example.com/a?b=c";
              cmd := launchCommand true (lit "www.example.com/a?b=c") |}.
Proof.
  assert (fullLengthMatch urlRegexFromWorkingExtension
            (join (lit " ") [lit "www.example.com/a?b=c"]) = true) as Hdirect
    by (vm_compute; reflexivity).
  pose proof (@C2_direct_url_is_whole_match asciiCase [lit "www.example.com/a?b=c"])
    as (_ & Hfull & Htarget).
  split; [exact Hdirect|]. split; [exact (proj1 Hfull Hdirect)|].
  exact (proj2 (Htarget Hdirect) (Part000.constructor shell sampleConfig)
           (lit "direct-url")).
Defined.

(** A match that covers only a prefix of the input does not classify it as
    a URL. *)
Example prefix_match_is_not_direct :
  String_match (lit "example.com cats") urlRegexFromWorkingExtension
    = Some {| index := 0; matched := lit "example.com" |} /\
  fullLengthMatch urlRegexFromWorkingExtension (join (lit " ") [lit "example.com"; lit "cats"])
    = false.
Proof. split; vm_compute; reflexivity. Qed.

(** C3. For the input [["bil"]], where the table of [src/unnamed/part_000]
    maps [bil] to an entry whose [empty_query_url] is
    [https://www.bilibili.com], the target URL is that constant, whatever
    the entry's template is. *)
Theorem C3_empty_query_url_constant `{Unicode} (this : Part000.PrefixWebSearchProvider)
    (engine : Part000.EngineConfig) (resultId : jsstring) :
  toLowerCase (lit "bil") = lit "bil" ->
  Part000._searchEnginesMap this !! lit "bil" = Some engine ->
  Part000.empty_query_url engine = Some (lit "https://www.bilibili.com") ->
  Part000.activateResult this resultId [lit "bil"]
  = Normal {| isDirectUrl := false;
              targetUrl := lit "https://www.bilibili.com";
              cmd := lit "xdg-open " ++ [dquote] ++ lit "https://www.bilibili.com"
                       ++ [dquote] |}.
Proof.
  intros Hlower Hengine Hhome. unfold Part000.activateResult.
  replace (fullLengthMatch _ _) with false by (vm_compute; reflexivity).
  rewrite Part000_selectEngine_chosen, Hlower. unfold chosenByPrefix. rewrite Hengine.
  rewrite Part000_searchUrl_targetOf. unfold targetOf. cbn [drop]. by rewrite Hhome.
Qed.

Lemma C3_empty_query_url_constant_witness :
  let this := Part000.constructor shell sampleConfig in
  let engine := {| Part000.url := lit "https://search.bilibili.com/all?keyword={query}";
                   Part000.empty_query_url := Some (lit "https://www.bilibili.com") |} in
  @toLowerCase asciiCase (lit "bil") = lit "bil" /\
  Part000._searchEnginesMap this !! lit "bil" = Some engine /\
  Part000.empty_query_url engine = Some (lit "https://www.bilibili.com") /\
  @Part000.activateResult asciiCase this (lit "custom-search") [lit "bil"]
  = Normal {| isDirectUrl := false;
              targetUrl := lit "https://www.bilibili.com";
              cmd := lit "xdg-open " ++ [dquote] ++ lit "https://www.bilibili.com"
                       ++ [dquote] |}.
Proof.
  intros this engine.
  assert (@toLowerCase asciiCase (lit "bil") = lit "bil") as Hlower by reflexivity.
  assert (Part000._searchEnginesMap this !! lit "bil" = Some engine) as Hengine
    by (vm_compute; reflexivity).
  assert (Part000.empty_query_url engine = Some (lit "https://www.bilibili.com")) as Hhome
    by reflexivity.
  split; [exact Hlower|]. split; [exact Hengine|]. split; [exact Hhome|].
  exact (@C3_empty_query_url_constant asciiCase this engine (lit "custom-search")
           Hlower Hengine Hhome).
Defined.

(** [src/extension.js] keeps no [empty_query_url]: there the lone term [bil]
    is a query for the [_default_] engine. *)
Example extension_js_has_no_empty_query_url :
  targetUrl <$> @Extension.activateResult asciiCase (Extension.constructor shell sampleConfig)
                  (lit "custom-search") [lit "bil"]
  = Normal (lit "https://duckduckgo.com/?q=bil").
Proof. vm_compute. reflexivity. Qed.

(** C4, as amended. For every term list of length exactly one that is not
    classified as a direct URL: [src/extension.js] uses the [_default_]
    entry with that single term as the query, also when the lowercased term
    is a key of the table, and selects an entry by its prefix only for lists
    of more than one term; [src/unnamed/part_000] uses the [_default_] entry
    with the single term when the lowercased term is not a key of the table,
    and otherwise the entry under that key with no query terms. *)
Theorem C4_single_term `{Unicode} (extension : ExtensionMeta)
    (config : list Config.Engine) (resultId : jsstring) (term : jsstring) :
  fullLengthMatch urlRegexFromWorkingExtension (join (lit " ") [term]) = false ->
  (let this := Extension.constructor extension config in
   let table := Extension._searchEnginesMap this in
   (exists template,
      table !! lit "_default_" = Some template /\
      Extension.selectEngine this [term] = (Some template, [term]) /\
      targetUrl <$> Extension.activateResult this resultId [term]
        = substituted template [term]) /\
   (forall terms,
      Extension.selectEngine this terms <> (table !! lit "_default_", terms) ->
      (1 < length terms)%nat /\
      Extension.selectEngine this terms
        = (table !! toLowerCase (hd [] terms), drop 1 terms)))
  /\
  (let this := Part000.constructor extension config in
   let table := Part000._searchEnginesMap this in
   match table !! toLowerCase term with
   | Some engine =>
       Part000.selectEngine this [term] = (Some engine, []) /\
       targetUrl <$> Part000.activateResult this resultId [term] = targetOf engine []
   | None =>
       exists engine,
         table !! lit "_default_" = Some engine /\
         Part000.selectEngine this [term] = (Some engine, [term]) /\
         targetUrl <$> Part000.activateResult this resultId [term]
           = substituted (Part000.url engine) [term]
   end).
Proof.
  intros Hsearch. split; cbv zeta.
  - destruct (Extension_default_present extension config) as [template Hdefault].
    set (this := Extension.constructor extension config) in *. split.
    + assert (Extension.selectEngine this [term] = (Some template, [term])) as Hsel.
      { rewrite Extension_selectEngine_chosen. unfold chosenByPrefixBeforeTerms.
        cbn [length Nat.ltb Nat.leb]. rewrite Hdefault. by destruct (_ !! toLowerCase term). }
      exists template. repeat split; try done.
      unfold Extension.activateResult. rewrite Hsearch, Hsel.
      rewrite Extension_searchUrl_substituted. by destruct (substituted template [term]).
    + intros terms Hprefix. unfold Extension.selectEngine in *.
      destruct (Map_has _ _) eqn:Hhas; [|done].
      destruct (1 <? length terms)%nat eqn:Hlen; [|done].
      apply Nat.ltb_lt in Hlen. split; [done|].
      destruct terms as [|t rest]; [simpl in Hlen; lia|]. done.
  - set (this := Part000.constructor extension config) in *.
    destruct (Part000._searchEnginesMap this !! toLowerCase term) as [engine|] eqn:Hkey.
    + assert (Part000.selectEngine this [term] = (Some engine, [])) as Hsel.
      { rewrite Part000_selectEngine_chosen. unfold chosenByPrefix. by rewrite Hkey. }
      split; [done|].
      unfold Part000.activateResult. rewrite Hsearch, Hsel.
      rewrite Part000_searchUrl_targetOf. by destruct (targetOf engine []).
    + destruct (Part000_default_present extension config) as [engine Hdefault].
      fold this in Hdefault.
      assert (Part000.selectEngine this [term] = (Some engine, [term])) as Hsel.
      { rewrite Part000_selectEngine_chosen. unfold chosenByPrefix.
        by rewrite Hkey, Hdefault. }
      exists engine. repeat split; try done.
      unfold Part000.activateResult. rewrite Hsearch, Hsel.
      rewrite Part000_searchUrl_targetOf. unfold targetOf.
      by destruct (substituted (Part000.url engine) [term]).
Qed.

Lemma C4_single_term_witness :
  fullLengthMatch urlRegexFromWorkingExtension (join (lit " ") [lit "gg"]) = false /\
  Extension.selectEngine (U := asciiCase) (Extension.constructor shell sampleConfig) [lit "gg"]
    = (Some (lit "https://duckduckgo.com/?q={query}"), [lit "gg"]) /\
  Part000.selectEngine (U := asciiCase) (Part000.constructor shell sampleConfig) [lit "gg"]
    = (Some {| Part000.url := googleTemplate; Part000.empty_query_url := None |}, []).
Proof.
  assert (fullLengthMatch urlRegexFromWorkingExtension (join (lit " ") [lit "gg"]) = false)
    as Hsearch by (vm_compute; reflexivity).
  destruct (@C4_single_term asciiCase shell sampleConfig (lit "custom-search") (lit "gg")
              Hsearch) as [[(template & Hdefault & Hsel & _) _] Hpart].
  split; [exact Hsearch|]. split.
  - rewrite Hsel. vm_compute in Hdefault. by injection Hdefault as <-.
  - cbv zeta in Hpart.
    replace (Part000._searchEnginesMap (Part000.constructor shell sampleConfig)
               !! @toLowerCase asciiCase (lit "gg"))
      with (Some {| Part000.url := googleTemplate; Part000.empty_query_url := None |})
      in Hpart by (vm_compute; reflexivity).
    exact (proj1 Hpart).
Defined.

(** C4 as stated fails in [src/unnamed/part_000]: the lone term [gg] is not a
    URL and is a key of the table, and the entry under [gg] is used, with no
    query terms, where the claim has the [_default_] entry and the query
    [gg]. *)
Lemma C4_counterexample :
  let this := Part000.constructor shell sampleConfig in
  let table := Part000._searchEnginesMap this in
  length [lit "gg"] = 1%nat /\
  fullLengthMatch urlRegexFromWorkingExtension (join (lit " ") [lit "gg"]) = false /\
  Part000.selectEngine (U := asciiCase) this [lit "gg"] = (table !! lit "gg", []) /\
  Part000.selectEngine (U := asciiCase) this [lit "gg"]
    <> (table !! lit "_default_", [lit "gg"]) /\
  targetUrl <$> @Part000.activateResult asciiCase this (lit "custom-search") [lit "gg"]
    = Normal (lit "https://www.google.com/search?q=") /\
  targetUrl <$> @Part000.activateResult asciiCase this (lit "custom-search") [lit "gg"]
    <> substituted (lit "https://duckduckgo.com/?q={query}") [lit "gg"].
Proof.
  simpl. repeat split; try done; try (vm_compute; reflexivity);
    vm_compute; discriminate.
Qed.

(** C5, as amended. For the query terms [["hello", "world!"]] the encoded
    query parameter is exactly [hello+world!]: each term goes through
    [encodeURIComponent], which leaves [!] as it is, and the encoded terms
    are joined with [+]; both revisions put this text at the placeholder of
    the template. *)
Theorem C5_encoded_query_parameter :
  searchQueryParam [lit "hello"; lit "world!"] = Normal (lit "hello+world!") /\
  (forall template,
     Extension.searchUrl (Some template) [lit "hello"; lit "world!"]
     = Normal (replaceFirst (lit "{query}") (lit "hello+world!") template)) /\
  (forall engine,
     Part000.searchUrl (Some engine) [lit "hello"; lit "world!"]
     = Normal (replaceFirst (lit "{query}") (lit "hello+world!") (Part000.url engine))).
Proof.
  split; [reflexivity|]. split.
  - intros template. by rewrite Extension_searchUrl_substituted.
  - intros engine. by rewrite Part000_searchUrl_targetOf.
Qed.

(** C5 as stated fails: the parameter is not [hello+world%21]. *)
Lemma C5_counterexample :
  searchQueryParam [lit "hello"; lit "world!"] <> Normal (lit "hello+world%21") /\
  targetUrl <$> @Extension.activateResult asciiCase (Extension.constructor shell sampleConfig)
                  (lit "custom-search") [lit "hello"; lit "world!"]
    = Normal (lit "https://duckduckgo.com/?q=hello+world!") /\
  targetUrl <$> @Part000.activateResult asciiCase (Part000.constructor shell sampleConfig)
                  (lit "custom-search") [lit "hello"; lit "world!"]
    = Normal (lit "https://duckduckgo.com/?q=hello+world!").
Proof.
  split; [vm_compute; discriminate|]. split; vm_compute; reflexivity.
Qed.

(** C6. After the provider is built from any configuration list, the engine
    table has an entry under [_default_]: the one the configuration gives
    last, or, when the configuration has no such prefix, the Google search
    template; and no sequence of calls on the provider changes the table. *)
Theorem C6_default_entry_and_frozen_table `{Unicode} (extension : ExtensionMeta)
    (config : list Config.Engine) :
  (let this := Extension.constructor extension config in
   is_Some (Extension._searchEnginesMap this !! lit "_default_") /\
   (Forall (fun engine => Config.prefix engine <> lit "_default_") config ->
    Extension._searchEnginesMap this !! lit "_default_" = Some googleTemplate) /\
   forall calls : list Extension.Call,
     Extension._searchEnginesMap (fold_left Extension.after calls this)
     = Extension._searchEnginesMap this)
  /\
  (let this := Part000.constructor extension config in
   is_Some (Part000._searchEnginesMap this !! lit "_default_") /\
   (Forall (fun engine => Config.prefix engine <> lit "_default_") config ->
    Part000._searchEnginesMap this !! lit "_default_"
    = Some {| Part000.url := googleTemplate; Part000.empty_query_url := None |}) /\
   forall calls : list Part000.Call,
     Part000._searchEnginesMap (fold_left Part000.after calls this)
     = Part000._searchEnginesMap this).
Proof.
  split; cbv zeta.
  - split; [apply Extension_default_present|]. split.
    + intros Habsent. rewrite Extension_table_lookup, lastWrite_absent by done.
      by rewrite decide_True.
    + intros calls. apply Extension_after_table.
  - split; [apply Part000_default_present|]. split.
    + intros Habsent. rewrite Part000_table_lookup, lastWrite_absent by done.
      by rewrite decide_True.
    + intros calls. apply Part000_after_table.
Qed.

Lemma C6_default_entry_and_frozen_table_witness :
  let config := [ {| Config.prefix := lit "gg"; Config.url := googleTemplate;
                     Config.empty_query_url := None |} ] in
  Forall (fun engine => Config.prefix engine <> lit "_default_") config /\
  Extension._searchEnginesMap (Extension.constructor shell config) !! lit "_default_"
    = Some googleTemplate /\
  Part000._searchEnginesMap (Part000.constructor shell config) !! lit "_default_"
    = Some {| Part000.url := googleTemplate; Part000.empty_query_url := None |}.
Proof.
  intros config.
  assert (Forall (fun engine => Config.prefix engine <> lit "_default_") config) as Habsent
    by (repeat constructor; discriminate).
  destruct (@C6_default_entry_and_frozen_table asciiCase shell config)
    as [(_ & He & _) (_ & Hp & _)].
  split; [exact Habsent|]. split; [exact (He Habsent)|exact (Hp Habsent)].
Defined.

(** C7. For the empty term list [getInitialResultSet] resolves with the
    empty identifier list, in both revisions and for every provider; it
    only records the terms. *)
Theorem C7_empty_terms_resolve_empty `{Unicode} :
  (forall this : Extension.PrefixWebSearchProvider,
     Extension.getInitialResultSet this []
     = ({| Extension._extension := Extension._extension this;
           Extension._lastParsedTerms := [];
           Extension._searchEnginesMap := Extension._searchEnginesMap this |},
        Resolved [])) /\
  (forall this : Part000.PrefixWebSearchProvider,
     Part000.getInitialResultSet this []
     = ({| Part000._extension := Part000._extension this;
           Part000._lastParsedTerms := [];
           Part000._searchEnginesMap := Part000._searchEnginesMap this |},
        Resolved [])).
Proof. by split. Qed.

(** Whatever the terms, the promise of [getInitialResultSet] is resolved,
    and for terms that are not empty with exactly one identifier. *)
Lemma getInitialResultSet_resolves `{Unicode} (terms : list jsstring) :
  (forall this : Extension.PrefixWebSearchProvider,
     exists identifiers,
       snd (Extension.getInitialResultSet this terms) = Resolved identifiers /\
       length identifiers = (if Nat.eqb (length terms) 0 then 0 else 1)%nat) /\
  (forall this : Part000.PrefixWebSearchProvider,
     exists identifiers,
       snd (Part000.getInitialResultSet this terms) = Resolved identifiers /\
       length identifiers = (if Nat.eqb (length terms) 0 then 0 else 1)%nat).
Proof.
  split; intros this;
    unfold Extension.getInitialResultSet, Part000.getInitialResultSet;
    destruct terms as [|t rest]; simpl; eauto;
    repeat case_match; eauto.
Qed.

(** C8. The command [activateResult] spawns is [xdg-open] followed by: the
    target URL as it is when the input was classified as a direct URL and
    the target starts with [http://] or [https://]; [https://] and the
    target when it was classified as a direct URL without such a scheme; the
    target between double quotes when it is a constructed search URL. *)
Theorem C8_command_construction `{Unicode} (resultId : jsstring)
    (terms : list jsstring) (activation : Activation) :
  (exists this, Extension.activateResult this resultId terms = Normal activation) \/
  (exists this, Part000.activateResult this resultId terms = Normal activation) ->
  isDirectUrl activation
    = fullLengthMatch urlRegexFromWorkingExtension (join (lit " ") terms) /\
  (isDirectUrl activation = true -> hasScheme (targetUrl activation) ->
   cmd activation = lit "xdg-open " ++ targetUrl activation) /\
  (isDirectUrl activation = true -> ~ hasScheme (targetUrl activation) ->
   cmd activation = lit "xdg-open " ++ lit "https://" ++ targetUrl activation) /\
  (isDirectUrl activation = false ->
   cmd activation = lit "xdg-open " ++ [dquote] ++ targetUrl activation ++ [dquote]).
Proof.
  intros Hact.
  assert (isDirectUrl activation
            = fullLengthMatch urlRegexFromWorkingExtension (join (lit " ") terms) /\
          cmd activation = launchCommand (isDirectUrl activation) (targetUrl activation))
    as [Hdirect Hcmd].
  { destruct Hact as [[this Hact]|[this Hact]];
      unfold Extension.activateResult, Part000.activateResult in Hact;
      match type of Hact with
      | mbind _ ?target = _ => destruct target as [url|]; [|done]
      end; by injection Hact as <-. }
  split; [done|]. rewrite Hcmd. unfold launchCommand.
  split; [|split].
  - intros -> [rest [Hu|Hu]]; rewrite Hu, startsWith_app; [done|by rewrite orb_true_r].
  - intros -> Hnone.
    destruct (startsWith (lit "http://") (targetUrl activation)) eqn:E1.
    { destruct Hnone. apply startsWith_inv in E1. eexists. by left. }
    destruct (startsWith (lit "https://") (targetUrl activation)) eqn:E2.
    { destruct Hnone. apply startsWith_inv in E2. eexists. by right. }
    done.
  - by intros ->.
Qed.

Lemma C8_command_construction_witness :
  let this := Extension.constructor shell sampleConfig in
  @Extension.activateResult asciiCase this (lit "direct-url") [lit "example.com"]
    = Normal {| isDirectUrl := true; targetUrl := lit "example.com";
                cmd := lit "xdg-open https://example.com" |} /\
  ~ hasScheme (lit "example.com") /\
  lit "xdg-open https://example.com" = lit "xdg-open " ++ lit "https://" ++ lit "example.com".
Proof.
  intros this.
  assert (@Extension.activateResult asciiCase this (lit "direct-url") [lit "example.com"]
          = Normal {| isDirectUrl := true; targetUrl := lit "example.com";
                      cmd := lit "xdg-open https://example.com" |}) as Hact
    by (vm_compute; reflexivity).
  assert (~ hasScheme (lit "example.com")) as Hnone
    by (intros [rest [Hu|Hu]]; discriminate Hu).
  split; [exact Hact|]. split; [exact Hnone|].
  exact (proj1 (proj2 (proj2 (@C8_command_construction asciiCase (lit "direct-url")
                                [lit "example.com"] _
                                (or_introl (ex_intro _ this Hact)))))
           eq_refl Hnone).
Defined.

(** The three shapes of the command on concrete input. *)
Example command_shapes :
  launchCommand true (lit "http://example.com") = lit "xdg-open http://example.com" /\
  launchCommand true (lit "https://example.com") = lit "xdg-open https://example.com" /\
  launchCommand true (lit "example.com") = lit "xdg-open https://example.com" /\
  launchCommand false (lit "https://www.google.com/search?q=a+b")
    = lit "xdg-open " ++ [dquote] ++ lit "https://www.google.com/search?q=a+b" ++ [dquote].
Proof. repeat split. Qed.

Lemma Extension_fallback_table (extension : ExtensionMeta) :
  Extension._searchEnginesMap (Extension.constructor extension Extension.fallbackConfig)
  = <[lit "_default_" := googleTemplate]> {[ lit "gg" := googleTemplate ]}.
Proof.
  unfold Extension.constructor, Extension.fallbackConfig, Map_has.
  cbn [fold_left Extension._searchEnginesMap Config.prefix Config.url].
  by rewrite lookup_insert_eq.
Qed.

Lemma Part000_fallback_table (extension : ExtensionMeta) :
  Part000._searchEnginesMap (Part000.constructor extension Part000.fallbackConfig)
  = <[lit "_default_" :=
        {| Part000.url := googleTemplate; Part000.empty_query_url := None |}]>
      {[ lit "gg" :=
        {| Part000.url := googleTemplate; Part000.empty_query_url := None |} ]}.
Proof.
  unfold Part000.constructor, Part000.fallbackConfig, Map_has.
  cbn [fold_left Part000._searchEnginesMap Config.prefix Config.url
       Config.empty_query_url].
  by rewrite lookup_insert_eq.
Qed.

(** C9. When the [try] block of [_loadSearchEnginesConfig] throws, wherever
    it does, the configuration becomes the two-entry fallback: the prefixes
    [gg] and [_default_], both with the Google search template.  Enabling
    the extension then completes normally, and a provider built on that
    occasion has exactly these two entries in its table. *)
Theorem C9_fallback_configuration `{Unicode} (decoderStored : bool) :
  (forall this : Extension.PrefixWebSearchExtension,
     Extension._searchEnginesConfig
       (Extension._loadSearchEnginesConfig (Failed decoderStored) this)
     = Some [ {| Config.prefix := lit "gg"; Config.url := googleTemplate;
                 Config.empty_query_url := None |};
              {| Config.prefix := lit "_default_"; Config.url := googleTemplate;
                 Config.empty_query_url := None |} ] /\
     exists enabled,
       Extension.enable (Failed decoderStored) this = Normal enabled /\
       is_Some (Extension._provider enabled) /\
       (Extension._searchEnginesConfig this = None -> Extension._provider this = None ->
        exists provider,
          Extension._provider enabled = Some provider /\
          Extension._searchEnginesMap provider
          = <[lit "_default_" := googleTemplate]> {[ lit "gg" := googleTemplate ]}))
  /\
  (forall this : Part000.PrefixWebSearchExtension,
     Part000._searchEnginesConfig
       (Part000._loadSearchEnginesConfig (Failed decoderStored) this)
     = Some [ {| Config.prefix := lit "gg"; Config.url := googleTemplate;
                 Config.empty_query_url := None |};
              {| Config.prefix := lit "_default_"; Config.url := googleTemplate;
                 Config.empty_query_url := None |} ] /\
     exists enabled,
       Part000.enable (Failed decoderStored) this = Normal enabled /\
       is_Some (Part000._provider enabled) /\
       (Part000._searchEnginesConfig this = None -> Part000._provider this = None ->
        exists provider,
          Part000._provider enabled = Some provider /\
          Part000._searchEnginesMap provider
          = <[lit "_default_" :=
                {| Part000.url := googleTemplate; Part000.empty_query_url := None |}]>
              {[ lit "gg" :=
                {| Part000.url := googleTemplate; Part000.empty_query_url := None |} ]})).
Proof.
  split; intros [meta provider config decoder]; (split; [done|]);
    unfold Extension.enable, Part000.enable; simpl;
    destruct config as [config|], provider as [provider|]; simpl;
    eexists; (split; [done|]); (split; [done|]); intros; try done;
    eexists; (split; [done|]).
  - apply Extension_fallback_table.
  - apply Part000_fallback_table.
Qed.

Lemma C9_fallback_configuration_witness :
  let fresh := {| Extension.meta := shell; Extension._provider := None;
                  Extension._searchEnginesConfig := None;
                  Extension._textDecoder := false |} in
  Extension._searchEnginesConfig fresh = None /\
  Extension._provider fresh = None /\
  exists enabled provider,
    Extension.enable (Failed false) fresh = Normal enabled /\
    Extension._provider enabled = Some provider /\
    Extension._searchEnginesMap provider
    = <[lit "_default_" := googleTemplate]> {[ lit "gg" := googleTemplate ]}.
Proof.
  intros fresh.
  destruct (proj1 (@C9_fallback_configuration asciiCase false) fresh)
    as (_ & enabled & Henable & _ & Hprovider).
  destruct (Hprovider eq_refl eq_refl) as (provider & Hp & Htable).
  split; [reflexivity|]. split; [reflexivity|].
  exists enabled, provider. by repeat split.
Defined.

(** C10. For every previous result list and every term list,
    [getSubsearchResultSet] returns what [getInitialResultSet] returns on
    the terms, and leaves the provider in the same state. *)
Theorem C10_subsearch_is_initial_search `{Unicode} (results terms : list jsstring) :
  (forall this : Extension.PrefixWebSearchProvider,
     Extension.getSubsearchResultSet this results terms
     = Extension.getInitialResultSet this terms) /\
  (forall this : Part000.PrefixWebSearchProvider,
     Part000.getSubsearchResultSet this results terms
     = Part000.getInitialResultSet this terms).
Proof. by split. Qed.

(** * Further properties of the code *)

(** ** Result lists *)

(** X1. [filterResults] keeps the first [maxResults] results in their order
    and drops the rest: its result is that prefix of the list, has the
    length of the shorter of the two bounds, and filtering it again changes
    nothing. *)
Theorem X1_filterResults_keeps_prefix (results : list jsstring) (maxResults : nat) :
  filterResults results maxResults = take maxResults results /\
  length (filterResults results maxResults) = Nat.min (length results) maxResults /\
  filterResults (filterResults results maxResults) maxResults
    = filterResults results maxResults.
Proof.
  assert (filterResults results maxResults = take maxResults results) as Heq.
  { unfold filterResults. destruct (length results <=? maxResults)%nat eqn:Hle; [|done].
    apply Nat.leb_le in Hle. by rewrite take_ge. }
  split; [done|]. split.
  - rewrite Heq, length_take. lia.
  - unfold filterResults at 1. rewrite Heq.
    replace (length (take maxResults results) <=? maxResults)%nat with true; [done|].
    symmetry. apply Nat.leb_le. rewrite length_take. lia.
Qed.

(** X2. For a non-empty term list [getInitialResultSet] resolves, in both
    revisions and whatever the engine table holds, with exactly one
    identifier: [direct-url] when the joined terms are classified as a URL,
    [custom-search] otherwise. *)
Theorem X2_one_identifier_by_classification `{Unicode} (term : jsstring)
    (rest : list jsstring) :
  let identifiers :=
    if fullLengthMatch urlRegexForInitialResultSet (join (lit " ") (term :: rest))
    then [lit "direct-url"] else [lit "custom-search"] in
  (forall this : Extension.PrefixWebSearchProvider,
     snd (Extension.getInitialResultSet this (term :: rest)) = Resolved identifiers) /\
  (forall this : Part000.PrefixWebSearchProvider,
     snd (Part000.getInitialResultSet this (term :: rest)) = Resolved identifiers).
Proof.
  split; intros this;
    unfold Extension.getInitialResultSet, Part000.getInitialResultSet;
    cbn [length Nat.eqb snd]; destruct (fullLengthMatch _ _); try done;
    destruct (Map_has _ _); try done; by destruct (1 <? _)%nat.
Qed.

Lemma lastSearchOf_snoc {Call} (searched : Call -> option (list jsstring))
    (calls : list Call) (call : Call) :
  lastSearchOf searched (calls ++ [call])
  = match searched call with
    | Some terms => Some terms
    | None => lastSearchOf searched calls
    end.
Proof. unfold lastSearchOf. by rewrite fold_left_app. Qed.

(** X3. The provider has one slot for the last input: after any sequence of
    calls, [_lastParsedTerms] holds the terms of the latest
    [getInitialResultSet] or [getSubsearchResultSet] among them, and what it
    held before when there was none; the reference to the extension never
    changes. *)
Theorem X3_last_search_terms_win `{Unicode} :
  (forall (calls : list Extension.Call) (this : Extension.PrefixWebSearchProvider),
     Extension._lastParsedTerms (fold_left Extension.after calls this)
     = default (Extension._lastParsedTerms this) (lastSearchOf Extension_searched calls) /\
     Extension._extension (fold_left Extension.after calls this)
     = Extension._extension this) /\
  (forall (calls : list Part000.Call) (this : Part000.PrefixWebSearchProvider),
     Part000._lastParsedTerms (fold_left Part000.after calls this)
     = default (Part000._lastParsedTerms this) (lastSearchOf Part000_searched calls) /\
     Part000._extension (fold_left Part000.after calls this)
     = Part000._extension this).
Proof.
  split; intros calls this; induction calls as [|call calls [IHterms IHext]] using rev_ind;
    try done; rewrite fold_left_app, lastSearchOf_snoc; cbn [fold_left];
    destruct call; try done;
    unfold Extension.after, Extension.getSubsearchResultSet, Extension.getInitialResultSet,
           Part000.after, Part000.getSubsearchResultSet, Part000.getInitialResultSet;
    by destruct (Nat.eqb (length terms) 0).
Qed.

(** ** Result metas *)

(** X4. [getResultMetas] always resolves, with one meta per identifier, in
    the order given and carrying that identifier; in
    [src/unnamed/part_000] every description is empty. *)
Theorem X4_metas_follow_identifiers `{Unicode} (resultIds : list jsstring) :
  (forall this : Extension.PrefixWebSearchProvider,
     exists metas,
       Extension.getResultMetas this resultIds = Resolved metas /\
       map Meta.id metas = resultIds) /\
  (forall this : Part000.PrefixWebSearchProvider,
     exists metas,
       Part000.getResultMetas this resultIds = Resolved metas /\
       map Meta.id metas = resultIds /\
       Forall (fun meta => Meta.description meta = []) metas).
Proof.
  split; intros this; eexists; (split; [reflexivity|]).
  - induction resultIds as [|id ids IH]; [done|]. cbn [map]. rewrite IH. f_equal.
    unfold Extension.resultMeta. repeat case_match; done.
  - split.
    + induction resultIds as [|id ids IH]; [done|]. cbn [map]. rewrite IH. f_equal.
      unfold Part000.resultMeta. repeat case_match; done.
    + apply Forall_map, Forall_true. intros id.
      unfold Part000.resultMeta. repeat case_match; done.
Qed.

(** X5. In [src/extension.js] the meta of a [custom-search] result describes
    the latest input.  After a search whose lowercased first term is a
    non-empty key of the table and is followed by more terms, the name is
    [Search] and the key in upper case, and the description quotes the other
    terms and names that key in upper case. *)
Theorem X5_meta_of_prefixed_search `{Unicode} (this : Extension.PrefixWebSearchProvider)
    (term : jsstring) (rest : list jsstring) :
  rest <> [] ->
  is_Some (Extension._searchEnginesMap this !! toLowerCase term) ->
  toLowerCase term <> [] ->
  Extension.getResultMetas (fst (Extension.getInitialResultSet this (term :: rest)))
    [lit "custom-search"]
  = Resolved
      [ {| Meta.id := lit "custom-search";
           Meta.name := lit "Search " ++ toUpperCase (toLowerCase term);
           Meta.description :=
             lit "Search for " ++ [dquote] ++ join (lit " ") rest ++ [dquote]
               ++ lit " on " ++ toUpperCase (toLowerCase term) |} ].
Proof.
  intros Hrest [template Hkey] Hnonempty.
  destruct rest as [|second rest]; [done|].
  unfold Extension.getResultMetas, Extension.getInitialResultSet. cbn [length Nat.eqb fst map].
  unfold Extension.resultMeta.
  cbn [Extension._lastParsedTerms Extension._searchEnginesMap head fmap option_fmap option_map].
  rewrite decide_False by done. rewrite decide_True by done.
  unfold Extension.engineNameOr, Map_has. rewrite Hkey.
  cbn [length Nat.ltb Nat.leb andb drop].
  destruct (toLowerCase term) as [|c key] eqn:Hlower; [done|]. done.
Qed.

Lemma X5_meta_of_prefixed_search_witness :
  let this := Extension.constructor shell sampleConfig in
  [lit "cats"; lit "dogs"] <> [] /\
  is_Some (Extension._searchEnginesMap this !! @toLowerCase asciiCase (lit "GG")) /\
  @toLowerCase asciiCase (lit "GG") <> [] /\
  @Extension.getResultMetas asciiCase
    (fst (@Extension.getInitialResultSet asciiCase this [lit "GG"; lit "cats"; lit "dogs"]))
    [lit "custom-search"]
  = Resolved
      [ {| Meta.id := lit "custom-search";
           Meta.name := lit "Search GG";
           Meta.description :=
             lit "Search for " ++ [dquote] ++ lit "cats dogs" ++ [dquote] ++ lit " on GG" |} ].
Proof.
  intros this.
  assert ([lit "cats"; lit "dogs"] <> []) as Hrest by done.
  assert (is_Some (Extension._searchEnginesMap this !! @toLowerCase asciiCase (lit "GG")))
    as Hkey by (vm_compute; eauto).
  assert (@toLowerCase asciiCase (lit "GG") <> []) as Hnonempty by done.
  split; [exact Hrest|]. split; [exact Hkey|]. split; [exact Hnonempty|].
  exact (@X5_meta_of_prefixed_search asciiCase this (lit "GG") [lit "cats"; lit "dogs"]
           Hrest Hkey Hnonempty).
Defined.

(** X6. In [src/extension.js], for a provider built from any configuration,
    the meta of a [custom-search] result after a search with at most one
    term, or whose lowercased first term is not a key of the table, has the
    name [Prefix Web Search] and a description that quotes all the terms and
    names the engine by the reserved key [_default_] in upper case. *)
Theorem X6_meta_of_default_search `{Unicode} (extension : ExtensionMeta)
    (config : list Config.Engine) (terms : list jsstring) :
  let this := Extension.constructor extension config in
  (length terms <= 1)%nat \/
  Extension._searchEnginesMap this !! toLowerCase (hd [] terms) = None ->
  Extension.getResultMetas (fst (Extension.getInitialResultSet this terms))
    [lit "custom-search"]
  = Resolved
      [ {| Meta.id := lit "custom-search";
           Meta.name := lit "Prefix Web Search";
           Meta.description :=
             lit "Search for " ++ [dquote] ++ join (lit " ") terms ++ [dquote]
               ++ lit " on " ++ toUpperCase (lit "_default_") |} ].
Proof.
  intros this Hdefault.
  destruct (Extension_default_present extension config) as [template Hpresent].
  fold this in Hpresent.
  assert (Extension._lastParsedTerms (fst (Extension.getInitialResultSet this terms)) = terms /\
          Extension._searchEnginesMap (fst (Extension.getInitialResultSet this terms))
          = Extension._searchEnginesMap this) as [Hterms Htable].
  { unfold Extension.getInitialResultSet. by destruct (Nat.eqb (length terms) 0). }
  unfold Extension.getResultMetas. cbn [map]. unfold Extension.resultMeta.
  rewrite Hterms, Htable. rewrite decide_False by done. rewrite decide_True by done.
  assert (Map_has (Extension._searchEnginesMap this) (toLowerCase <$> head terms)
          && (1 <? length terms)%nat = false) as ->.
  { destruct terms as [|term rest]; [done|]. cbn [head fmap option_fmap option_map hd] in *.
    destruct Hdefault as [Hlen|Hnone].
    - replace (1 <? length (term :: rest))%nat with false; [apply andb_false_r|].
      symmetry. apply Nat.ltb_ge. done.
    - unfold Map_has. by rewrite Hnone. }
  unfold Extension.engineNameOr, Map_has. by rewrite Hpresent.
Qed.

Lemma X6_meta_of_default_search_witness :
  (length [lit "gg"] <= 1)%nat /\
  @Extension.getResultMetas asciiCase
    (fst (@Extension.getInitialResultSet asciiCase (Extension.constructor shell sampleConfig)
            [lit "gg"]))
    [lit "custom-search"]
  = Resolved
      [ {| Meta.id := lit "custom-search";
           Meta.name := lit "Prefix Web Search";
           Meta.description :=
             lit "Search for " ++ [dquote] ++ lit "gg" ++ [dquote] ++ lit " on _DEFAULT_" |} ].
Proof.
  assert (length [lit "gg"] <= 1)%nat as Hlen by (simpl; lia).
  split; [exact Hlen|].
  exact (@X6_meta_of_default_search asciiCase shell sampleConfig [lit "gg"] (or_introl Hlen)).
Defined.

(** ** The engine table, entry by entry *)

Lemma lastWrite_last (earlier later : list Config.Engine) (entry : Config.Engine) :
  Forall (fun engine => Config.prefix engine <> Config.prefix entry) later ->
  lastWrite (Config.prefix entry) (earlier ++ entry :: later) = Some entry.
Proof.
  intros Hlater. induction earlier as [|engine earlier IH]; simpl.
  - rewrite lastWrite_absent by done. by rewrite bool_decide_eq_true_2.
  - by rewrite IH.
Qed.

Lemma lastWrite_Some (key : jsstring) (config : list Config.Engine) (entry : Config.Engine) :
  lastWrite key config = Some entry -> entry ∈ config /\ Config.prefix entry = key.
Proof.
  induction config as [|engine config IH]; [done|]. simpl.
  destruct (lastWrite key config) as [later|].
  - intros [= ->]. destruct (IH eq_refl) as [Hin Hkey]. split; [by right|done].
  - case_bool_decide; [|done]. intros [= ->]. split; [by left|done].
Qed.

Lemma lastWrite_None (key : jsstring) (config : list Config.Engine) :
  lastWrite key config = None ->
  Forall (fun engine => Config.prefix engine <> key) config.
Proof.
  induction config as [|engine config IH]; [constructor|]. simpl.
  destruct (lastWrite key config); [done|]. case_bool_decide; [done|].
  intros _. constructor; [done|by apply IH].
Qed.

(** X7. Building the table, a later entry of the configuration overwrites
    an earlier one with the same prefix: the table holds, under the prefix
    of an entry that no later entry repeats, the URL of that entry (and, in
    [src/unnamed/part_000], its [empty_query_url]). *)
Theorem X7_last_entry_wins (extension : ExtensionMeta)
    (earlier later : list Config.Engine) (entry : Config.Engine) :
  Forall (fun engine => Config.prefix engine <> Config.prefix entry) later ->
  let config := earlier ++ entry :: later in
  Extension._searchEnginesMap (Extension.constructor extension config)
    !! Config.prefix entry = Some (Config.url entry) /\
  Part000._searchEnginesMap (Part000.constructor extension config)
    !! Config.prefix entry
  = Some {| Part000.url := Config.url entry;
            Part000.empty_query_url := Config.empty_query_url entry |}.
Proof.
  intros Hlater config. subst config.
  by rewrite Extension_table_lookup, Part000_table_lookup, lastWrite_last.
Qed.

Lemma X7_last_entry_wins_witness :
  let first := {| Config.prefix := lit "gg"; Config.url := lit "https://a.example/?q={query}";
                  Config.empty_query_url := None |} in
  let second := {| Config.prefix := lit "gg"; Config.url := lit "https://b.example/?q={query}";
                   Config.empty_query_url := None |} in
  Forall (fun engine => Config.prefix engine <> Config.prefix second) [] /\
  Extension._searchEnginesMap (Extension.constructor shell [first; second]) !! lit "gg"
  = Some (lit "https://b.example/?q={query}").
Proof.
  intros first second.
  assert (Forall (fun engine => Config.prefix engine <> Config.prefix second) []) as Hlater
    by constructor.
  split; [exact Hlater|].
  exact (proj1 (X7_last_entry_wins shell [first] [] second Hlater)).
Defined.

(** X8. The table has the prefixes of the configuration as keys, the key
    [_default_], and no other key. *)
Theorem X8_table_keys (extension : ExtensionMeta) (config : list Config.Engine)
    (key : jsstring) :
  (is_Some (Extension._searchEnginesMap (Extension.constructor extension config) !! key)
   <-> key = lit "_default_" \/ exists entry, entry ∈ config /\ Config.prefix entry = key) /\
  (is_Some (Part000._searchEnginesMap (Part000.constructor extension config) !! key)
   <-> key = lit "_default_" \/ exists entry, entry ∈ config /\ Config.prefix entry = key).
Proof.
  rewrite Extension_table_lookup, Part000_table_lookup.
  destruct (lastWrite key config) as [entry|] eqn:Hlast.
  - apply lastWrite_Some in Hlast. split; (split; [by eauto|done]).
  - apply lastWrite_None in Hlast. rewrite Forall_forall in Hlast.
    split; case_decide; (split; [by auto|]);
      intros [?|(entry & Hin & Hkey)]; try done; by destruct (Hlast entry Hin).
Qed.

(** ** The two revisions side by side *)

Lemma tables_agree (extension : ExtensionMeta) (config : list Config.Engine)
    (key : jsstring) :
  Extension._searchEnginesMap (Extension.constructor extension config) !! key
  = Part000.url <$>
      Part000._searchEnginesMap (Part000.constructor extension config) !! key.
Proof.
  rewrite Extension_table_lookup, Part000_table_lookup.
  destruct (lastWrite key config); [done|]. by case_decide.
Qed.

Lemma targetOf_nonempty (engine : Part000.EngineConfig) (term : jsstring)
    (rest : list jsstring) :
  targetOf engine (term :: rest) = substituted (Part000.url engine) (term :: rest).
Proof. done. Qed.

(** X9. The two revisions launch the same command from the same
    configuration whenever the input has two or more terms, is classified as
    a direct URL, or is a single term whose lowercased form is not a key of
    the table: they can differ only on a lone term that is a key, and on no
    terms at all. *)
Theorem X9_revisions_agree `{Unicode} (extension : ExtensionMeta)
    (config : list Config.Engine) (resultId : jsstring) (terms : list jsstring) :
  (2 <= length terms)%nat \/
  fullLengthMatch urlRegexFromWorkingExtension (join (lit " ") terms) = true \/
  (exists term, terms = [term] /\
     Part000._searchEnginesMap (Part000.constructor extension config)
       !! toLowerCase term = None) ->
  Extension.activateResult (Extension.constructor extension config) resultId terms
  = Part000.activateResult (Part000.constructor extension config) resultId terms.
Proof.
  intros Hcase.
  destruct (fullLengthMatch urlRegexFromWorkingExtension (join (lit " ") terms)) eqn:Hdirect.
  { unfold Extension.activateResult, Part000.activateResult. by rewrite Hdirect. }
  destruct (Part000_default_present extension config) as [fallback Hdefault].
  pose proof (tables_agree extension config) as Hagree.
  set (old := Extension.constructor extension config) in *.
  set (new := Part000.constructor extension config) in *.
  unfold Extension.activateResult, Part000.activateResult. rewrite Hdirect.
  destruct Hcase as [Hlen|[?|(term & -> & Hnone)]]; [|done|].
  - destruct terms as [|term [|second rest]]; [simpl in Hlen; lia..|].
    rewrite Extension_selectEngine_chosen, Part000_selectEngine_chosen.
    unfold chosenByPrefixBeforeTerms, chosenByPrefix. rewrite !Hagree, Hdefault.
    cbn [length Nat.ltb Nat.leb drop].
    destruct (Part000._searchEnginesMap new !! toLowerCase term) as [engine|];
      cbn [fmap option_fmap option_map];
      by rewrite Extension_searchUrl_substituted, Part000_searchUrl_targetOf.
  - rewrite Extension_selectEngine_chosen, Part000_selectEngine_chosen.
    unfold chosenByPrefixBeforeTerms, chosenByPrefix. rewrite !Hagree, Hnone, Hdefault.
    cbn [fmap option_fmap option_map].
    by rewrite Extension_searchUrl_substituted, Part000_searchUrl_targetOf.
Qed.

Lemma X9_revisions_agree_witness :
  (2 <= length [lit "bil"; lit "cats"])%nat /\
  @Extension.activateResult asciiCase (Extension.constructor shell sampleConfig)
    (lit "custom-search") [lit "bil"; lit "cats"]
  = @Part000.activateResult asciiCase (Part000.constructor shell sampleConfig)
      (lit "custom-search") [lit "bil"; lit "cats"].
Proof.
  assert (2 <= length [lit "bil"; lit "cats"])%nat as Hlen by (simpl; lia).
  split; [exact Hlen|].
  exact (@X9_revisions_agree asciiCase shell sampleConfig (lit "custom-search")
           [lit "bil"; lit "cats"] (or_introl Hlen)).
Defined.

(** X10. The spelling of a prefix does not matter: when more terms follow,
    two first terms with the same lowercase form that is a key of the table
    lead to the same command, in both revisions. *)
Theorem X10_prefix_is_case_insensitive `{Unicode} (resultId first first' : jsstring)
    (rest : list jsstring) :
  rest <> [] ->
  toLowerCase first = toLowerCase first' ->
  (forall this : Extension.PrefixWebSearchProvider,
     is_Some (Extension._searchEnginesMap this !! toLowerCase first) ->
     Extension.activateResult this resultId (first :: rest)
     = Extension.activateResult this resultId (first' :: rest)) /\
  (forall this : Part000.PrefixWebSearchProvider,
     is_Some (Part000._searchEnginesMap this !! toLowerCase first) ->
     Part000.activateResult this resultId (first :: rest)
     = Part000.activateResult this resultId (first' :: rest)).
Proof.
  intros Hrest Hsame. destruct rest as [|second rest]; [done|].
  split; intros this [engine Hkey];
    unfold Extension.activateResult, Part000.activateResult;
    rewrite !several_terms_not_direct;
    rewrite ?Extension_selectEngine_chosen, ?Part000_selectEngine_chosen;
    unfold chosenByPrefixBeforeTerms, chosenByPrefix;
    by rewrite <- Hsame, Hkey.
Qed.

Lemma X10_prefix_is_case_insensitive_witness :
  [lit "cats"] <> [] /\
  @toLowerCase asciiCase (lit "GG") = @toLowerCase asciiCase (lit "gG") /\
  @Part000.activateResult asciiCase (Part000.constructor shell sampleConfig)
    (lit "custom-search") [lit "GG"; lit "cats"]
  = @Part000.activateResult asciiCase (Part000.constructor shell sampleConfig)
      (lit "custom-search") [lit "gG"; lit "cats"].
Proof.
  assert ([lit "cats"] <> []) as Hrest by done.
  assert (@toLowerCase asciiCase (lit "GG") = @toLowerCase asciiCase (lit "gG")) as Hsame
    by reflexivity.
  split; [exact Hrest|]. split; [exact Hsame|].
  apply (proj2 (@X10_prefix_is_case_insensitive asciiCase (lit "custom-search")
                  (lit "GG") (lit "gG") [lit "cats"] Hrest Hsame)).
  vm_compute. eauto.
Defined.

(** ** The query parameter *)

Lemma hexDigit_low (d : N) : d < 16 -> alwaysUnescaped (hexDigit d) = true.
Proof.
  intros Hd. unfold hexDigit.
  assert (d = 0 \/ d = 1 \/ d = 2 \/ d = 3 \/ d = 4 \/ d = 5 \/ d = 6 \/ d = 7 \/
          d = 8 \/ d = 9 \/ d = 10 \/ d = 11 \/ d = 12 \/ d = 13 \/ d = 14 \/ d = 15)
    as Hcases by lia.
  repeat (destruct Hcases as [->|Hcases]; [reflexivity|]). by subst.
Qed.

Lemma percentEscape_chars (octet : N) :
  octet < 256 -> Forall (fun c => queryChar c = true) (percentEscape octet).
Proof.
  intros Hoctet. unfold percentEscape. repeat constructor; unfold queryChar.
  - rewrite hexDigit_low; [done|]. apply N.Div0.div_lt_upper_bound. lia.
  - rewrite hexDigit_low; [done|]. by apply N.mod_lt.
Qed.

Lemma utf8Octets_bytes (cp : N) :
  cp < 0x110000 -> Forall (fun octet => octet < 256) (utf8Octets cp).
Proof.
  intros Hcp. unfold utf8Octets.
  repeat case_match; range_hyps;
    repeat match goal with H : (_ <? _) = _ |- _ => apply N.ltb_lt in H || apply N.ltb_ge in H end;
    repeat constructor;
    repeat match goal with
    | |- context [?a mod 64] => pose proof (N.mod_lt a 64 ltac:(lia)); generalize dependent (a mod 64); intros
    end.
  all: try lia.
  all: try (pose proof (N.Div0.div_lt_upper_bound cp 64 32 ltac:(lia)); lia).
  all: try (pose proof (N.Div0.div_lt_upper_bound cp 4096 16 ltac:(lia)); lia).
  all: try (pose proof (N.Div0.div_lt_upper_bound cp 262144 5 ltac:(lia)); lia).
Qed.

Lemma escapeCodePoint_chars (cp : N) :
  cp < 0x110000 -> Forall (fun c => queryChar c = true) (escapeCodePoint cp).
Proof.
  intros Hcp%utf8Octets_bytes. unfold escapeCodePoint.
  induction Hcp as [|octet octets Hoctet _ IH]; [constructor|].
  cbn [map List.concat]. apply Forall_app_2; [by apply percentEscape_chars|done].
Qed.

Lemma surrogate_pair_range (lead trail : N) :
  isLeadingSurrogate lead = true -> isTrailingSurrogate trail = true ->
  UTF16SurrogatePairToCodePoint lead trail < 0x110000.
Proof.
  unfold isLeadingSurrogate, isTrailingSurrogate, between, UTF16SurrogatePairToCodePoint.
  intros Hl Ht. range_hyps. lia.
Qed.

Lemma encodeURIComponent_chars (s r : jsstring) :
  Forall (fun c => isCodeUnit c = true) s ->
  encodeURIComponent s = Normal r -> Forall (fun c => queryChar c = true) r.
Proof.
  remember (length s) as n eqn:Hn.
  revert s r Hn. induction (lt_wf n) as [n _ IH]. intros s r -> Hunits Henc.
  destruct s as [|c rest]; simpl in Henc.
  { injection Henc as <-. constructor. }
  apply Forall_cons_1 in Hunits as [Hc Hrest]. apply N.ltb_lt in Hc.
  destruct (alwaysUnescaped c) eqn:Hun.
  { destruct (encodeURIComponent rest) as [r'|] eqn:Erest; [|done].
    injection Henc as <-. constructor; [unfold queryChar; by rewrite Hun|].
    eapply IH; [|done|done|done]. simpl; lia. }
  destruct (isLeadingSurrogate c) eqn:Hlead.
  { destruct rest as [|c2 rest']; [done|].
    destruct (isTrailingSurrogate c2) eqn:Htrail; [|done].
    destruct (encodeURIComponent rest') as [r'|] eqn:Erest; [|done].
    injection Henc as <-. apply Forall_cons_1 in Hrest as [_ Hrest].
    apply Forall_app_2; [by apply escapeCodePoint_chars, surrogate_pair_range|].
    eapply IH; [|done|done|done]. simpl; lia. }
  destruct (isTrailingSurrogate c); [done|].
  destruct (encodeURIComponent rest) as [r'|] eqn:Erest; [|done].
  injection Henc as <-. apply Forall_app_2; [apply escapeCodePoint_chars; lia|].
  eapply IH; [|done|done|done]. simpl; lia.
Qed.

(** X11. The query parameter built from terms of 16-bit code units consists
    of ASCII letters and digits and of the characters [-_.!~*'()%+] only: no
    space, quote, ampersand, hash, slash or backslash of the user's input
    reaches the URL unescaped. *)
Theorem X11_query_parameter_alphabet (terms : list jsstring) (q : jsstring) :
  Forall (Forall (fun c => isCodeUnit c = true)) terms ->
  searchQueryParam terms = Normal q ->
  Forall (fun c => queryChar c = true) q.
Proof.
  unfold searchQueryParam. intros Hunits.
  destruct (mapM encodeURIComponent terms) as [encoded|] eqn:Henc; [|done].
  intros [= <-]. apply join_Forall; [by repeat constructor|].
  revert encoded Henc. induction Hunits as [|t terms Ht _ IH]; intros encoded; simpl.
  - intros [= <-]. constructor.
  - destruct (encodeURIComponent t) as [r|] eqn:Er; [|done]. simpl.
    destruct (mapM encodeURIComponent terms) as [rs|]; [|done]. simpl.
    intros [= <-]. constructor; [by eapply encodeURIComponent_chars|by apply IH].
Qed.

Lemma X11_query_parameter_alphabet_witness :
  Forall (Forall (fun c => isCodeUnit c = true)) [lit "a b&c"; [0xD83D; 0xDE00]] /\
  searchQueryParam [lit "a b&c"; [0xD83D; 0xDE00]] = Normal (lit "a%20b%26c+%F0%9F%98%80") /\
  Forall (fun c => queryChar c = true) (lit "a%20b%26c+%F0%9F%98%80").
Proof.
  assert (Forall (Forall (fun c => isCodeUnit c = true)) [lit "a b&c"; [0xD83D; 0xDE00]])
    as Hunits by (repeat constructor).
  assert (searchQueryParam [lit "a b&c"; [0xD83D; 0xDE00]]
          = Normal (lit "a%20b%26c+%F0%9F%98%80")) as Hq by (vm_compute; reflexivity).
  split; [exact Hunits|]. split; [exact Hq|].
  exact (X11_query_parameter_alphabet _ _ Hunits Hq).
Defined.

Lemma hexDigit_avoids (x d : N) : x < cu "0" -> hexDigit d <> x.
Proof. unfold hexDigit. intros Hx. destruct (d <? 10); cbn in *; lia. Qed.

Lemma escapeCodePoint_avoids (x cp : N) :
  x < cu "0" -> x <> cu "%" -> Forall (fun c => c <> x) (escapeCodePoint cp).
Proof.
  intros Hx Hpercent. unfold escapeCodePoint.
  induction (utf8Octets cp) as [|octet octets IH]; [constructor|].
  cbn [map List.concat]. apply Forall_app_2; [|done].
  unfold percentEscape. repeat constructor; [done|by apply hexDigit_avoids..].
Qed.

(** A character below [0] that is neither kept as it is nor the percent sign
    does not occur in an encoded string. *)
Lemma encodeURIComponent_avoids (x : N) (s r : jsstring) :
  x < cu "0" -> x <> cu "%" -> alwaysUnescaped x = false ->
  encodeURIComponent s = Normal r -> Forall (fun c => c <> x) r.
Proof.
  intros Hx Hpercent Hescaped.
  remember (length s) as n eqn:Hn.
  revert s r Hn. induction (lt_wf n) as [n _ IH]. intros s r -> Henc.
  destruct s as [|c rest]; simpl in Henc.
  { injection Henc as <-. constructor. }
  destruct (alwaysUnescaped c) eqn:Hun.
  { destruct (encodeURIComponent rest) as [r'|] eqn:Erest; [|done].
    injection Henc as <-. constructor; [congruence|].
    eapply IH; [|done|done]. simpl; lia. }
  destruct (isLeadingSurrogate c).
  { destruct rest as [|c2 rest']; [done|].
    destruct (isTrailingSurrogate c2); [|done].
    destruct (encodeURIComponent rest') as [r'|] eqn:Erest; [|done].
    injection Henc as <-. apply Forall_app_2; [by apply escapeCodePoint_avoids|].
    eapply IH; [|done|done]. simpl; lia. }
  destruct (isTrailingSurrogate c); [done|].
  destruct (encodeURIComponent rest) as [r'|] eqn:Erest; [|done].
  injection Henc as <-. apply Forall_app_2; [by apply escapeCodePoint_avoids|].
  eapply IH; [|done|done]. simpl; lia.
Qed.

Lemma mapM_encode_avoids (x : N) (terms encoded : list jsstring) :
  x < cu "0" -> x <> cu "%" -> alwaysUnescaped x = false ->
  mapM encodeURIComponent terms = Normal encoded ->
  length encoded = length terms /\ Forall (Forall (fun c => c <> x)) encoded.
Proof.
  intros Hx Hpercent Hescaped.
  revert encoded; induction terms as [|t terms IH]; intros encoded; simpl.
  - by intros [= <-].
  - destruct (encodeURIComponent t) as [r|] eqn:Ht; [|done]. simpl.
    destruct (mapM encodeURIComponent terms) as [rs|]; [|done]. simpl.
    intros [= <-]. destruct (IH rs eq_refl) as [Hlen Hall]. split; [simpl; lia|].
    constructor; [by eapply encodeURIComponent_avoids|done].
Qed.

Lemma occurrences_absent (x : N) (s : jsstring) :
  Forall (fun c => c <> x) s -> occurrences x s = 0%nat.
Proof.
  intros Hall. unfold occurrences. apply count_occ_not_In.
  rewrite Forall_forall in Hall. intros Hin%list_elem_of_In. by apply (Hall x).
Qed.

Lemma occurrences_join (x : N) (parts : list jsstring) :
  Forall (Forall (fun c => c <> x)) parts ->
  occurrences x (join [x] parts) = Nat.pred (length parts).
Proof.
  induction 1 as [|p parts Hp Hparts IH]; [done|].
  destruct parts as [|p' parts].
  - simpl. by apply occurrences_absent.
  - rewrite join_cons. unfold occurrences in *. rewrite !count_occ_app, IH.
    fold (occurrences x p). rewrite occurrences_absent by done.
    simpl. by destruct (N.eq_dec x x).
Qed.

(** X12. The [+] signs of the query parameter are exactly the separators of
    the terms: a parameter built from n terms has n - 1 of them (none for no
    term), because a [+] inside a term is escaped. *)
Theorem X12_plus_signs_separate_terms (terms : list jsstring) (q : jsstring) :
  searchQueryParam terms = Normal q ->
  occurrences (cu "+") q = Nat.pred (length terms).
Proof.
  unfold searchQueryParam.
  destruct (mapM encodeURIComponent terms) as [encoded|] eqn:Henc; [|done].
  intros [= <-].
  apply (mapM_encode_avoids (cu "+")) in Henc as [<- Hall]; [|by cbn; lia|done|done].
  by apply (occurrences_join (cu "+")).
Qed.

Lemma X12_plus_signs_separate_terms_witness :
  searchQueryParam [lit "c++"; lit "a b"; lit "x"] = Normal (lit "c%2B%2B+a%20b+x") /\
  occurrences (cu "+") (lit "c%2B%2B+a%20b+x") = 2%nat.
Proof.
  assert (searchQueryParam [lit "c++"; lit "a b"; lit "x"] = Normal (lit "c%2B%2B+a%20b+x"))
    as Hq by (vm_compute; reflexivity).
  split; [exact Hq|]. exact (X12_plus_signs_separate_terms _ _ Hq).
Defined.

Lemma encodeURIComponent_plain (s : jsstring) :
  Forall (fun c => alwaysUnescaped c = true) s -> encodeURIComponent s = Normal s.
Proof. induction 1 as [|c s Hc _ IH]; [done|]. simpl. by rewrite Hc, IH. Qed.

(** X13. Terms made of ASCII letters, digits and [-_.!~*'()] pass through
    the encoding unchanged: the query parameter is the terms joined with
    [+]. *)
Theorem X13_plain_terms_unchanged (terms : list jsstring) :
  Forall (Forall (fun c => alwaysUnescaped c = true)) terms ->
  searchQueryParam terms = Normal (join (lit "+") terms).
Proof.
  intros Hplain. unfold searchQueryParam.
  assert (mapM encodeURIComponent terms = Normal terms) as ->; [|done].
  induction Hplain as [|t terms Ht _ IH]; [done|].
  simpl. by rewrite encodeURIComponent_plain, IH.
Qed.

Lemma X13_plain_terms_unchanged_witness :
  Forall (Forall (fun c => alwaysUnescaped c = true)) [lit "rocq"; lit "9.0_(beta)!"] /\
  searchQueryParam [lit "rocq"; lit "9.0_(beta)!"] = Normal (lit "rocq+9.0_(beta)!").
Proof.
  assert (Forall (Forall (fun c => alwaysUnescaped c = true)) [lit "rocq"; lit "9.0_(beta)!"])
    as Hplain by (repeat constructor).
  split; [exact Hplain|]. exact (X13_plain_terms_unchanged _ Hplain).
Defined.

Lemma encodeURIComponent_outcome (s : jsstring) :
  if wellFormed s then exists r, encodeURIComponent s = Normal r
  else encodeURIComponent s = Throw URIError.
Proof.
  remember (length s) as n eqn:Hn.
  revert s Hn. induction (lt_wf n) as [n _ IH]. intros s ->.
  destruct s as [|c rest]; simpl; [by eexists|].
  assert (alwaysUnescaped c = true ->
          isLeadingSurrogate c = false /\ isTrailingSurrogate c = false) as Hdisjoint.
  { intros Hun. unfold alwaysUnescaped, isAsciiWordChar, inString, between in Hun.
    cbn in Hun. unfold isLeadingSurrogate, isTrailingSurrogate, between.
    split; apply andb_false_iff; rewrite !N.leb_gt; by_ranges. }
  destruct (alwaysUnescaped c) eqn:Hun.
  { destruct (Hdisjoint eq_refl) as [-> ->]. cbn [negb andb].
    specialize (IH (length rest) ltac:(simpl; lia) rest eq_refl).
    destruct (wellFormed rest); [destruct IH as [r ->]; by eexists|by rewrite IH]. }
  destruct (isLeadingSurrogate c).
  { destruct rest as [|c2 rest']; [done|].
    destruct (isTrailingSurrogate c2); [|done]. cbn [andb].
    specialize (IH (length rest') ltac:(simpl; lia) rest' eq_refl).
    destruct (wellFormed rest'); [destruct IH as [r ->]; by eexists|by rewrite IH]. }
  destruct (isTrailingSurrogate c); [done|]. cbn [negb andb].
  specialize (IH (length rest) ltac:(simpl; lia) rest eq_refl).
  destruct (wellFormed rest); [destruct IH as [r ->]; by eexists|by rewrite IH].
Qed.

Lemma searchQueryParam_outcome (terms : list jsstring) :
  if forallb wellFormed terms then exists q, searchQueryParam terms = Normal q
  else searchQueryParam terms = Throw URIError.
Proof.
  unfold searchQueryParam.
  assert (if forallb wellFormed terms
          then exists encoded, mapM encodeURIComponent terms = Normal encoded
          else mapM encodeURIComponent terms = Throw URIError) as Hmap.
  { induction terms as [|t terms IH]; simpl; [by eexists|].
    pose proof (encodeURIComponent_outcome t) as Ht.
    destruct (wellFormed t); [|by rewrite Ht]. destruct Ht as [r ->]. simpl.
    destruct (forallb wellFormed terms); [destruct IH as [rs ->]; by eexists|by rewrite IH]. }
  destruct (forallb wellFormed terms); [destruct Hmap as [encoded ->]; by eexists|].
  by rewrite Hmap.
Qed.

(** X14. Building the query parameter fails exactly when some term has an
    unpaired surrogate, and then with a URIError; otherwise it yields a
    parameter. *)
Theorem X14_query_parameter_outcome (terms : list jsstring) :
  (forallb wellFormed terms = true <-> exists q, searchQueryParam terms = Normal q) /\
  (forallb wellFormed terms = false <-> searchQueryParam terms = Throw URIError) /\
  (forall e, searchQueryParam terms = Throw e -> e = URIError).
Proof.
  pose proof (searchQueryParam_outcome terms) as Hout.
  destruct (forallb wellFormed terms).
  - destruct Hout as [q Hq]. rewrite Hq. repeat split; try done. by eauto.
  - rewrite Hout. repeat split; try done; [by intros [? ?]|by intros ? [= <-]].
Qed.

(** ** How [activateResult] can end *)







(** ** The target URL and its command *)

Lemma replaceFirst_Forall (A : N -> Prop) (needle replacement str : jsstring) :
  Forall A str -> Forall A replacement -> Forall A (replaceFirst needle replacement str).
Proof.
  intros Hstr Hrep. induction Hstr as [|c str Hc Hstr IH]; simpl.
  - destruct (startsWith needle []); [|constructor].
    apply Forall_app_2; [done|]. rewrite drop_nil. constructor.
  - destruct (startsWith needle (c :: str)).
    + apply Forall_app_2; [done|]. apply Forall_drop. by constructor.
    + by constructor.
Qed.

Lemma searchQueryParam_avoids (x : N) (terms : list jsstring) (q : jsstring) :
  x < cu "0" -> x <> cu "%" -> x <> cu "+" -> alwaysUnescaped x = false ->
  searchQueryParam terms = Normal q -> Forall (fun c => c <> x) q.
Proof.
  intros Hx Hpercent Hplus Hescaped. unfold searchQueryParam.
  destruct (mapM encodeURIComponent terms) as [encoded|] eqn:Henc; [|done].
  intros [= <-]. apply join_Forall; [by repeat constructor|].
  by apply (mapM_encode_avoids x) in Henc as [_ ?].
Qed.

Lemma quoted_command_quotes (url : jsstring) :
  Forall (fun c => c <> dquote) url ->
  occurrences dquote (launchCommand false url) = 2%nat.
Proof.
  intros Hurl. unfold launchCommand, occurrences.
  rewrite !count_occ_app. fold (occurrences dquote url).
  rewrite occurrences_absent by done. reflexivity.
Qed.

(** X16. The terms of a search cannot break the quoting of the command: when
    the selected template (and, in [src/unnamed/part_000], the engine's
    [empty_query_url]) has no double quote, the target URL has none, and the
    spawned command has exactly the two that wrap the URL. *)
Theorem X16_terms_cannot_break_quoting (queryTerms : list jsstring) (url : jsstring) :
  (forall template,
     Forall (fun c => c <> dquote) template ->
     Extension.searchUrl (Some template) queryTerms = Normal url ->
     Forall (fun c => c <> dquote) url /\
     occurrences dquote (launchCommand false url) = 2%nat) /\
  (forall engine,
     Forall (fun c => c <> dquote) (Part000.url engine) ->
     Forall (fun c => c <> dquote) (default [] (Part000.empty_query_url engine)) ->
     Part000.searchUrl (Some engine) queryTerms = Normal url ->
     Forall (fun c => c <> dquote) url /\
     occurrences dquote (launchCommand false url) = 2%nat).
Proof.
  assert (forall template,
    Forall (fun c => c <> dquote) template ->
    substituted template queryTerms = Normal url ->
    Forall (fun c => c <> dquote) url) as Hsub.
  { intros template Htemplate. unfold substituted.
    destruct (searchQueryParam queryTerms) as [q|] eqn:Hq; [|done]. intros [= <-].
    apply replaceFirst_Forall; [done|].
    apply (searchQueryParam_avoids dquote) in Hq; done || by cbn; lia. }
  split.
  - intros template Htemplate. rewrite Extension_searchUrl_substituted. intros Hurl.
    split; [|apply quoted_command_quotes]; by eapply Hsub.
  - intros engine Htemplate Hhome. rewrite Part000_searchUrl_targetOf. intros Hurl.
    assert (Forall (fun c => c <> dquote) url) as Hclean; [|by auto using quoted_command_quotes].
    unfold targetOf in Hurl.
    destruct queryTerms, (Part000.empty_query_url engine) as [[|c home]|];
      try exact (Hsub _ Htemplate Hurl). by injection Hurl as <-.
Qed.

Lemma X16_terms_cannot_break_quoting_witness :
  let hostile := [dquote] ++ lit "; rm -rf ~ #" in
  Forall (fun c => c <> dquote) googleTemplate /\
  Extension.searchUrl (Some googleTemplate) [hostile]
    = Normal (lit "https://www.google.com/search?q=%22%3B%20rm%20-rf%20~%20%23") /\
  occurrences dquote
    (launchCommand false (lit "https://www.google.com/search?q=%22%3B%20rm%20-rf%20~%20%23"))
    = 2%nat.
Proof.
  intros hostile.
  assert (Forall (fun c => c <> dquote) googleTemplate) as Htemplate
    by (repeat constructor; discriminate).
  assert (Extension.searchUrl (Some googleTemplate) [hostile]
          = Normal (lit "https://www.google.com/search?q=%22%3B%20rm%20-rf%20~%20%23"))
    as Hurl by (vm_compute; reflexivity).
  split; [exact Htemplate|]. split; [exact Hurl|].
  exact (proj2 (proj1 (X16_terms_cannot_break_quoting [hostile] _) googleTemplate
                  Htemplate Hurl)).
Defined.

(** X17. A template without the placeholder [{query}] is the target URL as
    it stands: the terms are encoded and then dropped. *)
Theorem X17_template_without_placeholder (template : jsstring)
    (queryTerms : list jsstring) :
  (forall pre post, template <> pre ++ lit "{query}" ++ post) ->
  forallb wellFormed queryTerms = true ->
  Extension.searchUrl (Some template) queryTerms = Normal template /\
  Part000.searchUrl (Some {| Part000.url := template; Part000.empty_query_url := None |})
    queryTerms = Normal template.
Proof.
  intros Habsent [q Hq]%searchQueryParam_wellFormed.
  rewrite Extension_searchUrl_substituted, Part000_searchUrl_targetOf.
  unfold targetOf, substituted. cbn [Part000.url Part000.empty_query_url].
  rewrite Hq. cbn. rewrite replaceFirst_absent by done. by destruct queryTerms.
Qed.

Lemma X17_template_without_placeholder_witness :
  (forall pre post, lit "https://a.b/" <> pre ++ lit "{query}" ++ post) /\
  forallb wellFormed [lit "cats"] = true /\
  Extension.searchUrl (Some (lit "https://a.b/")) [lit "cats"] = Normal (lit "https://a.b/").
Proof.
  assert (forall pre post, lit "https://a.b/" <> pre ++ lit "{query}" ++ post) as Habsent.
  { intros pre post Heq.
    assert (In (cu "{") (lit "https://a.b/")) as Hin.
    { rewrite Heq. apply in_or_app. right. by left. }
    cbn in Hin. repeat (destruct Hin as [Hin|Hin]; [discriminate Hin|]). done. }
  assert (forallb wellFormed [lit "cats"] = true) as Hwf by reflexivity.
  split; [exact Habsent|]. split; [exact Hwf|].
  exact (proj1 (X17_template_without_placeholder _ _ Habsent Hwf)).
Defined.

(** X18. Only the first placeholder is filled in: for a template that reads
    [pre], then [{query}] at its first occurrence, then [post], the target
    is [pre], the query parameter and [post] unchanged, whatever [post]
    holds. *)
Theorem X18_first_placeholder_only (pre post : jsstring) (queryTerms : list jsstring)
    (q : jsstring) :
  (forall pre' post', pre ++ lit "{query}" ++ post = pre' ++ lit "{query}" ++ post' ->
                      (length pre <= length pre')%nat) ->
  searchQueryParam queryTerms = Normal q ->
  Extension.searchUrl (Some (pre ++ lit "{query}" ++ post)) queryTerms
    = Normal (pre ++ q ++ post) /\
  Part000.searchUrl
    (Some {| Part000.url := pre ++ lit "{query}" ++ post; Part000.empty_query_url := None |})
    queryTerms = Normal (pre ++ q ++ post).
Proof.
  intros Hfirst Hq.
  rewrite Extension_searchUrl_substituted, Part000_searchUrl_targetOf.
  unfold targetOf, substituted. cbn [Part000.url Part000.empty_query_url].
  rewrite Hq. cbn [mbind completion_bind]. rewrite replaceFirst_occurrence by done.
  by destruct queryTerms.
Qed.

Lemma X18_first_placeholder_only_witness :
  (forall pre' post',
     lit "a?q=" ++ lit "{query}" ++ lit "&r={query}" = pre' ++ lit "{query}" ++ post' ->
     (length (lit "a?q=") <= length pre')%nat) /\
  searchQueryParam [lit "x"; lit "y"] = Normal (lit "x+y") /\
  Extension.searchUrl (Some (lit "a?q=" ++ lit "{query}" ++ lit "&r={query}")) [lit "x"; lit "y"]
    = Normal (lit "a?q=" ++ lit "x+y" ++ lit "&r={query}").
Proof.
  assert (forall pre' post',
     lit "a?q=" ++ lit "{query}" ++ lit "&r={query}" = pre' ++ lit "{query}" ++ post' ->
     (length (lit "a?q=") <= length pre')%nat) as Hfirst.
  { intros pre' post' Heq.
    destruct pre' as [|c0 [|c1 [|c2 [|c3 pre']]]]; try (simpl; lia);
      cbn in Heq; discriminate Heq. }
  assert (searchQueryParam [lit "x"; lit "y"] = Normal (lit "x+y")) as Hq by reflexivity.
  split; [exact Hfirst|]. split; [exact Hq|].
  exact (proj1 (X18_first_placeholder_only _ _ _ _ Hfirst Hq)).
Defined.

(** ** What counts as a direct URL *)

Lemma Advances_parts (A : N -> Prop) (x y : MatchState) :
  Advances A x y -> forall c, In c (remaining y) -> In c (remaining x).
Proof. intros (w & -> & _) c Hin. apply in_or_app. by right. Qed.

(** X19. An input classified as a direct URL consists of the characters of
    the path class of the expression and has a dot: an input with a space,
    and a single word without a dot, are always searches. *)
Theorem X19_direct_url_needs_a_dot (s : jsstring) :
  fullLengthMatch urlRegexFromWorkingExtension s = true ->
  Forall (fun ch => inRanges pathClass ch = true) s /\
  In (cu ".") s /\ ~ In (cu " ") s.
Proof.
  intros Hdirect. pose proof (direct_url_chars s Hdirect) as Hchars.
  split; [done|]. split.
  - apply fullLengthMatch_FullMatch in Hdirect as (yf & Hfull & _).
    match eval cbv [urlRegexFromWorkingExtension sequence fold_left]
          in urlRegexFromWorkingExtension with
    | Seq (Seq (Seq (Seq ?host ?dot) ?tld) ?boundary) ?path =>
        change urlRegexFromWorkingExtension
          with (Seq (Seq (Seq (Seq host dot) tld) boundary) path) in Hfull;
        set (head := host) in Hfull
    end.
    cbn [Matches] in Hfull.
    destruct Hfull as (y6 & (y5 & (y4 & (y3 & Hhead & Hdot) & _) & _) & _).
    destruct Hdot as (ch & rest & Hrem & ->%N.eqb_eq & _).
    apply Matches_moves_forward in Hhead.
    apply (Advances_parts _ _ _ Hhead). rewrite Hrem. by left.
  - intros Hspace. rewrite Forall_forall in Hchars.
    by specialize (Hchars _ (proj2 (list_elem_of_In _ _) Hspace)).
Qed.

Lemma X19_direct_url_needs_a_dot_witness :
  fullLengthMatch urlRegexFromWorkingExtension (lit "example.com/a") = true /\
  In (cu ".") (lit "example.com/a").
Proof.
  assert (fullLengthMatch urlRegexFromWorkingExtension (lit "example.com/a") = true)
    as Hdirect by (vm_compute; reflexivity).
  split; [exact Hdirect|].
  exact (proj1 (proj2 (X19_direct_url_needs_a_dot _ Hdirect))).
Defined.

(** X20. Two or more terms are never a direct URL: [getInitialResultSet]
    answers [custom-search] for them, and a command [activateResult] spawns
    for them has the URL between double quotes, in both revisions. *)
Theorem X20_several_terms_are_a_search `{Unicode} (first second : jsstring)
    (others : list jsstring) :
  let terms := first :: second :: others in
  fullLengthMatch urlRegexFromWorkingExtension (join (lit " ") terms) = false /\
  (forall this : Extension.PrefixWebSearchProvider,
     snd (Extension.getInitialResultSet this terms) = Resolved [lit "custom-search"] /\
     forall resultId activation,
       Extension.activateResult this resultId terms = Normal activation ->
       cmd activation
       = lit "xdg-open " ++ [dquote] ++ targetUrl activation ++ [dquote]) /\
  (forall this : Part000.PrefixWebSearchProvider,
     snd (Part000.getInitialResultSet this terms) = Resolved [lit "custom-search"] /\
     forall resultId activation,
       Part000.activateResult this resultId terms = Normal activation ->
       cmd activation
       = lit "xdg-open " ++ [dquote] ++ targetUrl activation ++ [dquote]).
Proof.
  intros terms.
  pose proof (several_terms_not_direct first second others) as Hsearch. fold terms in Hsearch.
  split; [done|].
  split; intros this; (split; [|intros resultId activation]).
  - unfold Extension.getInitialResultSet, urlRegexForInitialResultSet.
    cbn [length Nat.eqb snd]. rewrite Hsearch. by destruct (Map_has _ _).
  - unfold Extension.activateResult. rewrite Hsearch.
    destruct (let '(_, _) := _ in _) as [url|]; [|done]. by intros [= <-].
  - unfold Part000.getInitialResultSet, urlRegexForInitialResultSet.
    cbn [length Nat.eqb snd]. rewrite Hsearch. by destruct (Map_has _ _).
  - unfold Part000.activateResult. rewrite Hsearch.
    destruct (let '(_, _) := _ in _) as [url|]; [|done]. by intros [= <-].
Qed.

Lemma X20_several_terms_are_a_search_witness :
  exists activation,
    @Part000.activateResult asciiCase (Part000.constructor shell sampleConfig)
      (lit "custom-search") [lit "example.com"; lit "example.org"] = Normal activation /\
    targetUrl activation = lit "https://duckduckgo.com/?q=example.com+example.org" /\
    cmd activation = lit "xdg-open " ++ [dquote] ++ targetUrl activation ++ [dquote].
Proof.
  eexists.
  assert (@Part000.activateResult asciiCase (Part000.constructor shell sampleConfig)
            (lit "custom-search") [lit "example.com"; lit "example.org"]
          = Normal {| isDirectUrl := false;
                      targetUrl := lit "https://duckduckgo.com/?q=example.com+example.org";
                      cmd := lit "xdg-open " ++ [dquote]
                        ++ lit "https://duckduckgo.com/?q=example.com+example.org"
                        ++ [dquote] |}) as Hact by (vm_compute; reflexivity).
  split; [exact Hact|]. split; [reflexivity|].
  exact (proj2 (proj2 (proj2 (@X20_several_terms_are_a_search asciiCase (lit "example.com")
                                (lit "example.org") []))
                  (Part000.constructor shell sampleConfig)) _ _ Hact).
Defined.


(** X22. The identifier a search shows and the way its activation is
    launched agree: for terms that are not empty and any provider, a
    completed [activateResult] treats the input as a direct URL exactly when
    [getInitialResultSet] answered [direct-url], and as a search when it
    answered [custom-search]. *)
Theorem X22_identifier_matches_launch `{Unicode} (resultId term : jsstring)
    (rest : list jsstring) (activation : Activation) :
  (forall this : Extension.PrefixWebSearchProvider,
     Extension.activateResult this resultId (term :: rest) = Normal activation ->
     snd (Extension.getInitialResultSet this (term :: rest))
     = Resolved [if isDirectUrl activation then lit "direct-url" else lit "custom-search"]) /\
  (forall this : Part000.PrefixWebSearchProvider,
     Part000.activateResult this resultId (term :: rest) = Normal activation ->
     snd (Part000.getInitialResultSet this (term :: rest))
     = Resolved [if isDirectUrl activation then lit "direct-url" else lit "custom-search"]).
Proof.
  split; intros this Hact.
  - assert (isDirectUrl activation
            = fullLengthMatch urlRegexForInitialResultSet (join (lit " ") (term :: rest)))
      as ->.
    { unfold Extension.activateResult in Hact.
      match type of Hact with mbind _ ?target = _ => destruct target; [|done] end.
      by injection Hact as <-. }
    unfold Extension.getInitialResultSet. cbn [length Nat.eqb snd].
    destruct (fullLengthMatch _ _); [done|].
    destruct (Map_has _ _); [|done]. by destruct (1 <? _)%nat.
  - assert (isDirectUrl activation
            = fullLengthMatch urlRegexForInitialResultSet (join (lit " ") (term :: rest)))
      as ->.
    { unfold Part000.activateResult in Hact.
      match type of Hact with mbind _ ?target = _ => destruct target; [|done] end.
      by injection Hact as <-. }
    unfold Part000.getInitialResultSet. cbn [length Nat.eqb snd].
    destruct (fullLengthMatch _ _); [done|]. by destruct (Map_has _ _).
Qed.

Lemma X22_identifier_matches_launch_witness :
  let this := Extension.constructor shell sampleConfig in
  let activation := {| isDirectUrl := true; targetUrl := lit "example.com";
                       cmd := lit "xdg-open https://example.com" |} in
  @Extension.activateResult asciiCase this (lit "direct-url") [lit "example.com"]
    = Normal activation /\
  snd (@Extension.getInitialResultSet asciiCase this [lit "example.com"])
    = Resolved [lit "direct-url"].
Proof.
  intros this activation.
  assert (@Extension.activateResult asciiCase this (lit "direct-url") [lit "example.com"]
          = Normal activation) as Hact by (vm_compute; reflexivity).
  split; [exact Hact|].
  exact (proj1 (@X22_identifier_matches_launch asciiCase (lit "direct-url")
                  (lit "example.com") [] activation) this Hact).
Defined.

(** ** Enabling and disabling *)

Lemma Extension_enable_enabled (file : LoadOutcome)
    (this : Extension.PrefixWebSearchExtension) :
  exists enabled,
    Extension.enable file this = Normal enabled /\
    Extension.meta enabled = Extension.meta this /\
    is_Some (Extension._provider enabled) /\
    is_Some (Extension._searchEnginesConfig enabled).
Proof.
  destruct this as [meta [provider|] [config|] decoder], file as [parsed|stored];
    by eexists.
Qed.

Lemma Part000_enable_enabled (file : LoadOutcome)
    (this : Part000.PrefixWebSearchExtension) :
  exists enabled,
    Part000.enable file this = Normal enabled /\
    Part000.meta enabled = Part000.meta this /\
    is_Some (Part000._provider enabled) /\
    is_Some (Part000._searchEnginesConfig enabled).
Proof.
  destruct this as [meta [provider|] [config|] decoder], file as [parsed|stored];
    by eexists.
Qed.




(** X24. Enabling an enabled extension changes nothing: the configuration
    file is not read again, whatever it holds by then, and the provider is
    kept with the terms it last parsed. *)
Theorem X24_enable_twice_is_enable_once (file again : LoadOutcome) :
  (forall this enabled : Extension.PrefixWebSearchExtension,
     Extension.enable file this = Normal enabled ->
     Extension.enable again enabled = Normal enabled) /\
  (forall this enabled : Part000.PrefixWebSearchExtension,
     Part000.enable file this = Normal enabled ->
     Part000.enable again enabled = Normal enabled).
Proof.
  split; intros this enabled Henable.
  - destruct (Extension_enable_enabled file this) as (e & He & _ & [p Hp] & [c Hc]).
    rewrite He in Henable. injection Henable as <-.
    unfold Extension.enable. by rewrite Hc, Hp.
  - destruct (Part000_enable_enabled file this) as (e & He & _ & [p Hp] & [c Hc]).
    rewrite He in Henable. injection Henable as <-.
    unfold Part000.enable. by rewrite Hc, Hp.
Qed.

Lemma X24_enable_twice_is_enable_once_witness :
  exists enabled,
    Extension.enable (Failed false) (Extension.created shell) = Normal enabled /\
    Extension.enable (Parsed sampleConfig) enabled = Normal enabled.
Proof.
  eexists.
  assert (Extension.enable (Failed false) (Extension.created shell)
          = Normal {| Extension.meta := shell;
                      Extension._provider :=
                        Some (Extension.constructor shell Extension.fallbackConfig);
                      Extension._searchEnginesConfig := Some Extension.fallbackConfig;
                      Extension._textDecoder := false |}) as Henable by reflexivity.
  split; [exact Henable|].
  exact (proj1 (X24_enable_twice_is_enable_once (Failed false)
                  (Parsed sampleConfig)) _ _ Henable).
Defined.

